(** * SpeakFlow content planner: record store and planning view

    A shallow embedding of [server.js] (the Express handlers and the SQL
    statements they send to PostgreSQL) and of [public/app.js] (the
    browser view), followed by the properties of the two.

    Conventions of the embedding.
    - A JSON property is absent ([undefined]), [null], or carries a
      value; text properties carry a [string], numeric ones a [Z].
    - A table row is a record whose nullable columns are [option]s.
    - [CURRENT_TIMESTAMP] is the argument [now] of a statement.
    - A statement fails on the errors the schema defines for these
      values: a NULL in a NOT NULL column and a text longer than its
      VARCHAR(n) column.  INTEGER columns are read as [Z].  A statement
      that passes these checks is carried out: faults of the engine or
      of the connection are not part of the model.
    - Strings are byte strings; lengths are counted in bytes. *)

From Stdlib Require Import ZArith List String Ascii Bool Lia Permutation.
From Stdlib Require Import Sorted.
From Stdlib Require OrderedTypeEx.
Import ListNotations.
Local Open Scope string_scope.
Local Open Scope Z_scope.

(** ** JavaScript values *)

Inductive js (A : Type) : Type :=
| undefined
| null
| val (a : A).

Arguments undefined {A}.
Arguments null {A}.
Arguments val {A} a.

(** [x || d] for a text property [x]: [undefined], [null] and the empty
    string are falsy. *)
Definition or_else (x : js string) (d : string) : string :=
  match x with
  | val s => if (s =? "")%string then d else s
  | _ => d
  end.

(** node-postgres binds [undefined] and [null] alike as SQL NULL. *)
Definition prepareValue {A : Type} (x : js A) : option A :=
  match x with
  | val a => Some a
  | _ => None
  end.

(** SQL [COALESCE(a, b)]. *)
Definition COALESCE {A : Type} (a b : option A) : option A :=
  match a with
  | Some _ => a
  | None => b
  end.

(** ** Statement results *)

Inductive PgError : Type :=
| not_null_violation (column : string)
| value_too_long (n : nat).

Inductive Result (A : Type) : Type :=
| Ok (a : A)
| Err (e : PgError).

Arguments Ok {A} a.
Arguments Err {A} e.

Definition bind {A B : Type} (m : Result A) (k : A -> Result B) : Result B :=
  match m with
  | Ok a => k a
  | Err e => Err e
  end.

Declare Scope result_scope.
Delimit Scope result_scope with result.
Notation "x <- m ;; k" := (bind m (fun x => k))
  (at level 100, m at next level, right associativity) : result_scope.
Local Open Scope result_scope.

(** ** The table [sf_articles] *)

Record Row : Type := mkRow {
  id : Z;                       (* SERIAL PRIMARY KEY *)
  article_id : string;          (* VARCHAR(10) UNIQUE NOT NULL *)
  title : string;               (* TEXT NOT NULL *)
  keyword : option string;      (* VARCHAR(255) *)
  intent : option string;       (* VARCHAR(100) *)
  funnel : option string;       (* VARCHAR(50) *)
  description : option string;  (* TEXT *)
  priority : option string;     (* VARCHAR(20) *)
  word_count : option Z;        (* INTEGER *)
  category : option string;     (* VARCHAR(100) *)
  week : option Z;              (* INTEGER *)
  status : option string;       (* VARCHAR(50) DEFAULT 'planned' *)
  notes : option string;        (* TEXT *)
  created_at : Z;               (* TIMESTAMP DEFAULT CURRENT_TIMESTAMP *)
  updated_at : Z                (* TIMESTAMP DEFAULT CURRENT_TIMESTAMP *)
}.

(** The database behind the pool: the rows of the table and the next
    value of the sequence behind [id]. *)
Record Db : Type := mkDb {
  seq : Z;
  rows : list Row
}.

(** Storing a text in a VARCHAR(n) column: a longer text is an error
    unless every character past the n-th is a space, in which case it is
    cut to n characters. *)
Fixpoint all_spaces (s : string) : bool :=
  match s with
  | EmptyString => true
  | String c s' => (c =? " ")%char && all_spaces s'
  end.

Definition varchar (n : nat) (v : option string) : Result (option string) :=
  match v with
  | None => Ok None
  | Some s =>
      if (String.length s <=? n)%nat then Ok (Some s)
      else if all_spaces (substring n (String.length s - n) s)
           then Ok (Some (substring 0 n s))
           else Err (value_too_long n)
  end.

Definition not_null {A : Type} (column : string) (v : option A) : Result A :=
  match v with
  | Some a => Ok a
  | None => Err (not_null_violation column)
  end.

(** The VALUES list of an INSERT, one entry per column it names; the
    columns it leaves out take their defaults. *)
Record Values : Type := mkValues {
  v_article_id : option string;
  v_title : option string;
  v_keyword : option string;
  v_intent : option string;
  v_funnel : option string;
  v_description : option string;
  v_priority : option string;
  v_word_count : option Z;
  v_category : option string;
  v_week : option Z;
  v_status : option string;
  v_notes : option string
}.

(** The row proposed for insertion (EXCLUDED in the conflict clause):
    the values are coerced to their columns, then the NOT NULL
    constraints are checked. *)
Definition proposed (next now : Z) (v : Values) : Result Row :=
  c_article_id <- varchar 10 (v_article_id v) ;;
  c_keyword <- varchar 255 (v_keyword v) ;;
  c_intent <- varchar 100 (v_intent v) ;;
  c_funnel <- varchar 50 (v_funnel v) ;;
  c_priority <- varchar 20 (v_priority v) ;;
  c_category <- varchar 100 (v_category v) ;;
  c_status <- varchar 50 (v_status v) ;;
  n_article_id <- not_null "article_id" c_article_id ;;
  n_title <- not_null "title" (v_title v) ;;
  Ok {| id := next; article_id := n_article_id; title := n_title;
        keyword := c_keyword; intent := c_intent; funnel := c_funnel;
        description := v_description v; priority := c_priority;
        word_count := v_word_count v; category := c_category;
        week := v_week v; status := c_status; notes := v_notes v;
        created_at := now; updated_at := now |}.

Definition conflicts (excluded r : Row) : bool :=
  (article_id r =? article_id excluded)%string.

(** [INSERT ... ON CONFLICT (article_id) DO UPDATE SET ... RETURNING *].
    [do_update now old excluded] is the SET list.  The statement yields
    the new database and the row it returns. *)
Definition insert_on_conflict (do_update : Z -> Row -> Row -> Row)
    (now : Z) (v : Values) (d : Db) : Result (Db * Row) :=
  excluded <- proposed (seq d) now v ;;
  match find (conflicts excluded) (rows d) with
  | Some old =>
      Ok ({| seq := seq d + 1;
             rows := map (fun r => if conflicts excluded r
                                   then do_update now r excluded else r)
                         (rows d) |},
          do_update now old excluded)
  | None =>
      Ok ({| seq := seq d + 1; rows := rows d ++ [excluded] |}, excluded)
  end.

(** SET list of POST /api/articles (server.js 106-118). *)
Definition set_upsert (now : Z) (old excluded : Row) : Row :=
  {| id := id old; article_id := article_id old;
     title := title excluded;
     keyword := keyword excluded;
     intent := intent excluded;
     funnel := funnel excluded;
     description := description excluded;
     priority := priority excluded;
     word_count := word_count excluded;
     category := category excluded;
     week := week excluded;
     status := COALESCE (status excluded) (status old);
     notes := COALESCE (notes excluded) (notes old);
     created_at := created_at old;
     updated_at := now |}.

(** SET list of POST /api/articles/bulk (server.js 178-188). *)
Definition set_bulk (now : Z) (old excluded : Row) : Row :=
  {| id := id old; article_id := article_id old;
     title := title excluded;
     keyword := keyword excluded;
     intent := intent excluded;
     funnel := funnel excluded;
     description := description excluded;
     priority := priority excluded;
     word_count := word_count excluded;
     category := category excluded;
     week := week excluded;
     status := status old;
     notes := notes old;
     created_at := created_at old;
     updated_at := now |}.

(** [UPDATE sf_articles SET status = COALESCE($1, status), notes =
    COALESCE($2, notes), week = COALESCE($3, week), updated_at =
    CURRENT_TIMESTAMP WHERE id = $4 RETURNING *] (server.js 136-141).
    The SET list is evaluated for the rows the WHERE clause selects. *)
Definition set_patch (now : Z) (p1 p2 : option string) (p3 : option Z)
    (r : Row) : Result Row :=
  c_status <- varchar 50 (COALESCE p1 (status r)) ;;
  Ok {| id := id r; article_id := article_id r; title := title r;
        keyword := keyword r; intent := intent r; funnel := funnel r;
        description := description r; priority := priority r;
        word_count := word_count r; category := category r;
        week := COALESCE p3 (week r);
        status := c_status;
        notes := COALESCE p2 (notes r);
        created_at := created_at r; updated_at := now |}.

Fixpoint update_where_id (f : Row -> Result Row) (i : Z) (l : list Row)
  : Result (list Row * list Row) :=
  match l with
  | [] => Ok ([], [])
  | r :: l' =>
      if id r =? i then
        r' <- f r ;;
        rest <- update_where_id f i l' ;;
        Ok (r' :: fst rest, r' :: snd rest)
      else
        rest <- update_where_id f i l' ;;
        Ok (r :: fst rest, snd rest)
  end.

Definition update_patch (now : Z) (p1 p2 : option string) (p3 : option Z)
    (i : Z) (d : Db) : Result (Db * list Row) :=
  res <- update_where_id (set_patch now p1 p2 p3) i (rows d) ;;
  Ok ({| seq := seq d; rows := fst res |}, snd res).

(** [SELECT * FROM sf_articles WHERE id = $1]. *)
Definition select_by_id (i : Z) (d : Db) : Result (list Row) :=
  Ok (filter (fun r => id r =? i) (rows d)).

(** [DELETE FROM sf_articles WHERE id = $1]. *)
Definition delete_by_id (i : Z) (d : Db) : Result Db :=
  Ok {| seq := seq d; rows := filter (fun r => negb (id r =? i)) (rows d) |}.

(** [SELECT * FROM sf_articles ORDER BY week, article_id]: ascending,
    NULL weeks last, article ids in byte order. *)
Definition week_article_le (a b : Row) : bool :=
  match week a, week b with
  | Some x, Some y =>
      (x <? y) || ((x =? y) && (article_id a <=? article_id b)%string)
  | Some _, None => true
  | None, Some _ => false
  | None, None => (article_id a <=? article_id b)%string
  end.

Fixpoint insert_sorted (le : Row -> Row -> bool) (r : Row) (l : list Row)
  : list Row :=
  match l with
  | [] => [r]
  | x :: l' => if le r x then r :: l else x :: insert_sorted le r l'
  end.

Definition order_by (le : Row -> Row -> bool) (l : list Row) : list Row :=
  fold_right (insert_sorted le) [] l.

Definition select_all (d : Db) : Result (list Row) :=
  Ok (order_by week_article_le (rows d)).

(** [COUNT( * ) FILTER (WHERE column = 'text')]: a NULL column is not
    counted. *)
Definition is_text (c : option string) (t : string) : bool :=
  match c with
  | Some s => (s =? t)%string
  | None => false
  end.

Definition count_where (p : Row -> bool) (l : list Row) : Z :=
  Z.of_nat (List.length (filter p l)).

(** The one row of the statistics query (server.js 209-220), as the
    object it is sent as; the counts are read as the numbers they
    print. *)
Definition select_stats (d : Db) : Result (list (string * Z)) :=
  Ok [ ("total", Z.of_nat (List.length (rows d)));
       ("high_priority", count_where (fun r => is_text (priority r) "High") (rows d));
       ("medium_priority", count_where (fun r => is_text (priority r) "Medium") (rows d));
       ("low_priority", count_where (fun r => is_text (priority r) "Low") (rows d));
       ("planned", count_where (fun r => is_text (status r) "planned") (rows d));
       ("in_progress", count_where (fun r => is_text (status r) "in_progress") (rows d));
       ("written", count_where (fun r => is_text (status r) "written") (rows d));
       ("published", count_where (fun r => is_text (status r) "published") (rows d)) ].

(** ** Requests and responses *)

(** Body of POST /api/articles (server.js 101). *)
Module Body.
Record t : Type := make {
  article_id : js string;
  title : js string;
  keyword : js string;
  intent : js string;
  funnel : js string;
  description : js string;
  priority : js string;
  word_count : js Z;
  category : js string;
  week : js Z;
  status : js string;
  notes : js string
}.
End Body.

(** One element of [articles] in the body of POST /api/articles/bulk
    (server.js 189). *)
Module Article.
Record t : Type := make {
  id : js string;
  title : js string;
  keyword : js string;
  intent : js string;
  funnel : js string;
  description : js string;
  priority : js string;
  wordCount : js Z;
  category : js string;
  week : js Z
}.
End Article.

(** Body of PATCH /api/articles/:id (server.js 133). *)
Module Patch.
Record t : Type := make {
  status : js string;
  notes : js string;
  week : js Z
}.
End Patch.

Inductive Message : Type :=
| Database_not_available
| Article_not_found
| pg_message (e : PgError).

Inductive Json : Type :=
| JRows (l : list Row)
| JRow (r : Row)
| JError (error : Message)
| JSuccess
| JSuccessCount (count : Z)
| JCounts (fields : list (string * Z)).

Record Response : Type := mkResponse {
  code : Z;
  json : Json
}.

(** [res.json(x)] and [res.status(n).json(x)]. *)
Definition res_json (x : Json) : Response := {| code := 200; json := x |}.
Definition res_status_json (n : Z) (x : Json) : Response :=
  {| code := n; json := x |}.

(** ** The server *)

Record Server : Type := mkServer {
  pool : option Db;
  dbReady : bool
}.

(** The guard [if (!pool || !dbReady)] that opens every handler: the
    database the handler goes on with, if any. *)
Definition available (s : Server) : option Db :=
  match pool s with
  | Some d => if dbReady s then Some d else None
  | None => None
  end.

Definition with_db (s : Server) (d : Db) : Server :=
  {| pool := Some d; dbReady := dbReady s |}.


(** GET /api/articles (server.js 69-80). *)
Definition get_articles (s : Server) : Server * Response :=
  match available s with
  | None => (s, res_json (JRows []))
  | Some d =>
      match select_all d with
      | Ok l => (s, res_json (JRows l))
      | Err e => (s, res_status_json 500 (JError (pg_message e)))
      end
  end.

(** GET /api/articles/:id (server.js 82-95). *)
Definition get_article (s : Server) (i : Z) : Server * Response :=
  match available s with
  | None => (s, res_status_json 503 (JError Database_not_available))
  | Some d =>
      match select_by_id i d with
      | Ok [] => (s, res_status_json 404 (JError Article_not_found))
      | Ok (r :: _) => (s, res_json (JRow r))
      | Err e => (s, res_status_json 500 (JError (pg_message e)))
      end
  end.

(** The twelve parameters of the statement of POST /api/articles
    (server.js 120). *)
Definition upsert_values (b : Body.t) : Values :=
  {| v_article_id := prepareValue (Body.article_id b);
     v_title := prepareValue (Body.title b);
     v_keyword := prepareValue (Body.keyword b);
     v_intent := prepareValue (Body.intent b);
     v_funnel := prepareValue (Body.funnel b);
     v_description := prepareValue (Body.description b);
     v_priority := prepareValue (Body.priority b);
     v_word_count := prepareValue (Body.word_count b);
     v_category := prepareValue (Body.category b);
     v_week := prepareValue (Body.week b);
     v_status := Some (or_else (Body.status b) "planned");
     v_notes := prepareValue (Body.notes b) |}.

(** POST /api/articles (server.js 97-127). *)
Definition post_article (s : Server) (b : Body.t) (now : Z)
  : Server * Response :=
  match available s with
  | None => (s, res_status_json 503 (JError Database_not_available))
  | Some d =>
      match insert_on_conflict set_upsert now (upsert_values b) d with
      | Ok (d', r) => (with_db s d', res_json (JRow r))
      | Err e => (s, res_status_json 500 (JError (pg_message e)))
      end
  end.

(** PATCH /api/articles/:id (server.js 129-151). *)
Definition patch_article (s : Server) (i : Z) (b : Patch.t) (now : Z)
  : Server * Response :=
  match available s with
  | None => (s, res_status_json 503 (JError Database_not_available))
  | Some d =>
      match update_patch now (prepareValue (Patch.status b))
              (prepareValue (Patch.notes b)) (prepareValue (Patch.week b))
              i d with
      | Ok (d', []) =>
          (with_db s d', res_status_json 404 (JError Article_not_found))
      | Ok (d', r :: _) => (with_db s d', res_json (JRow r))
      | Err e => (s, res_status_json 500 (JError (pg_message e)))
      end
  end.

(** DELETE /api/articles/:id (server.js 153-163). *)
Definition delete_article (s : Server) (i : Z) : Server * Response :=
  match available s with
  | None => (s, res_status_json 503 (JError Database_not_available))
  | Some d =>
      match delete_by_id i d with
      | Ok d' => (with_db s d', res_json JSuccess)
      | Err e => (s, res_status_json 500 (JError (pg_message e)))
      end
  end.

(** The ten parameters of the statement of the bulk import (server.js
    189); [status] and [notes] are not among its columns and take their
    defaults, 'planned' and NULL. *)
Definition bulk_values (a : Article.t) : Values :=
  {| v_article_id := prepareValue (Article.id a);
     v_title := prepareValue (Article.title a);
     v_keyword := prepareValue (Article.keyword a);
     v_intent := prepareValue (Article.intent a);
     v_funnel := prepareValue (Article.funnel a);
     v_description := prepareValue (Article.description a);
     v_priority := prepareValue (Article.priority a);
     v_word_count := prepareValue (Article.wordCount a);
     v_category := prepareValue (Article.category a);
     v_week := prepareValue (Article.week a);
     v_status := Some "planned";
     v_notes := None |}.

(** A client checked out of the pool: the database as the connection
    sees it and, inside a transaction, the table as it was at BEGIN.
    ROLLBACK puts the table back; the sequence is not transactional and
    keeps the values it gave out. *)
Record Client : Type := mkClient {
  conn : Db;
  at_begin : option (list Row)
}.

Definition connect (d : Db) : Client := {| conn := d; at_begin := None |}.

Definition BEGIN (c : Client) : Client :=
  {| conn := conn c; at_begin := Some (rows (conn c)) |}.

Definition COMMIT (c : Client) : Client :=
  {| conn := conn c; at_begin := None |}.

Definition ROLLBACK (c : Client) : Client :=
  match at_begin c with
  | Some saved =>
      {| conn := {| seq := seq (conn c); rows := saved |}; at_begin := None |}
  | None => c
  end.

(** [client.query] of the bulk statement: on success the connection
    moves on, on error it stays where it was and the error is thrown. *)
Definition client_insert (now : Z) (a : Article.t) (c : Client)
  : Client * Result unit :=
  match insert_on_conflict set_bulk now (bulk_values a) (conn c) with
  | Ok (d', _) => ({| conn := d'; at_begin := at_begin c |}, Ok tt)
  | Err e => (c, Err e)
  end.

(** The loop [for (const article of articles)] (server.js 174-191): it
    stops at the first statement that throws. *)
Fixpoint for_each_article (now : Z) (articles : list Article.t) (c : Client)
  : Client * Result unit :=
  match articles with
  | [] => (c, Ok tt)
  | a :: rest =>
      match client_insert now a c with
      | (c', Ok _) => for_each_article now rest c'
      | (c', Err e) => (c', Err e)
      end
  end.

(** POST /api/articles/bulk (server.js 166-201). *)
Definition post_articles_bulk (s : Server) (articles : list Article.t)
    (now : Z) : Server * Response :=
  match available s with
  | None => (s, res_status_json 503 (JError Database_not_available))
  | Some d =>
      let client := connect d in
      match for_each_article now articles (BEGIN client) with
      | (c, Ok _) =>
          (with_db s (conn (COMMIT c)),
           res_json (JSuccessCount (Z.of_nat (List.length articles))))
      | (c, Err e) =>
          (with_db s (conn (ROLLBACK c)),
           res_status_json 500 (JError (pg_message e)))
      end
  end.

(** GET /api/stats (server.js 204-225). *)
Definition get_stats (s : Server) : Server * Response :=
  match available s with
  | None =>
      (s, res_json (JCounts [ ("total", 0); ("high_priority", 0);
                              ("medium_priority", 0); ("low_priority", 0) ]))
  | Some d =>
      match select_stats d with
      | Ok fields => (s, res_json (JCounts fields))
      | Err e => (s, res_status_json 500 (JError (pg_message e)))
      end
  end.

(** ** The planning view (public/app.js) *)

(** An entry of [staticArticles], the dataset a script of the page
    defines; the bulk import reads the same properties off it. *)
Module Static.
Record t : Type := make {
  id : string;
  title : string;
  keyword : js string;
  intent : js string;
  funnel : js string;
  description : js string;
  priority : js string;
  wordCount : js Z;
  category : js string;
  week : js Z
}.
End Static.

(** An article object of the view: a row the list endpoint sent, or an
    entry of the static dataset. *)
Inductive ViewArticle : Type :=
| from_store (r : Row)
| from_static (p : Static.t).

(** What the page is run with: [String.prototype.toLowerCase] of the
    engine, the dataset script (absent when [typeof staticArticles] is
    'undefined') and the HTML written for one article or one group,
    which the view only concatenates (app.js 170-198, 217-237 and
    255-276). *)

Class Host : Type := {
  toLowerCase : string -> string;
  toLowerCase_empty : toLowerCase "" = "";
  staticArticles : option (list Static.t);
  list_card : ViewArticle -> string;
  week_section : js Z -> list ViewArticle -> string;
  category_section : string -> list ViewArticle -> string
}.

(** A column of a row as JSON: NULL is sent as [null]. *)
Definition nullable {A : Type} (c : option A) : js A :=
  match c with
  | Some a => val a
  | None => null
  end.

(** The properties the view reads off an article. *)
Definition title_of (a : ViewArticle) : string :=
  match a with
  | from_store r => title r
  | from_static p => Static.title p
  end.

Definition keyword_of (a : ViewArticle) : js string :=
  match a with
  | from_store r => nullable (keyword r)
  | from_static p => Static.keyword p
  end.

Definition description_of (a : ViewArticle) : js string :=
  match a with
  | from_store r => nullable (description r)
  | from_static p => Static.description p
  end.

Definition category_of (a : ViewArticle) : js string :=
  match a with
  | from_store r => nullable (category r)
  | from_static p => Static.category p
  end.

Definition priority_of (a : ViewArticle) : js string :=
  match a with
  | from_store r => nullable (priority r)
  | from_static p => Static.priority p
  end.

Definition funnel_of (a : ViewArticle) : js string :=
  match a with
  | from_store r => nullable (funnel r)
  | from_static p => Static.funnel p
  end.

Definition status_of (a : ViewArticle) : js string :=
  match a with
  | from_store r => nullable (status r)
  | from_static _ => undefined
  end.

Definition week_of (a : ViewArticle) : js Z :=
  match a with
  | from_store r => nullable (week r)
  | from_static p => Static.week p
  end.

(** [JSON.stringify] of a static entry, as the server parses it. *)
Definition stringify (p : Static.t) : Article.t :=
  {| Article.id := val (Static.id p);
     Article.title := val (Static.title p);
     Article.keyword := Static.keyword p;
     Article.intent := Static.intent p;
     Article.funnel := Static.funnel p;
     Article.description := Static.description p;
     Article.priority := Static.priority p;
     Article.wordCount := Static.wordCount p;
     Article.category := Static.category p;
     Article.week := Static.week p |}.

(** The value of [articles]: the array the list endpoint answers with,
    or whatever other object came back. *)
Inductive Loaded : Type :=
| array (l : list ViewArticle)
| object (j : Json).

Definition parse (j : Json) : Loaded :=
  match j with
  | JRows l => array (map from_store l)
  | _ => object j
  end.

(** The page: the two variables of the script and the controls and
    containers of the document it reads and writes. *)
Record Page : Type := mkPage {
  articles : Loaded;
  filteredArticles : list ViewArticle;
  search : string;
  category_filter : string;
  priority_filter : string;
  funnel_filter : string;
  status_filter : string;
  view_mode : string;
  results_count : Z;
  content_area : string
}.

(** The world a page talks to: the server, its clock, and for each
    request to come whether the network carries it ([fetch] rejects when
    it does not; past the end of the list it does). *)
Record World : Type := mkWorld {
  server : Server;
  clock : Z;
  net : list bool
}.

Definition carried (w : World) : bool :=
  match net w with
  | b :: _ => b
  | [] => true
  end.

Definition after_request (w : World) (s : Server) : World :=
  {| server := s; clock := clock w + 1; net := tl (net w) |}.

(** [fetch] of a route: [None] when the promise rejects, else the
    parsed body of the response. *)
Definition fetch (handler : Server -> Z -> Server * Response) (w : World)
  : World * option Json :=
  if carried w then
    let (s, r) := handler (server w) (clock w) in
    (after_request w s, Some (json r))
  else (after_request w (server w), None).

(** ** Filtering (app.js 112-133) *)

Fixpoint includes (s sub : string) : bool :=
  prefix sub s ||
  match s with
  | EmptyString => false
  | String _ s' => includes s' sub
  end.

(** [x && x.toLowerCase().includes(search)] *)
Definition and_includes `{Host} (x : js string) (sub : string) : bool :=
  match x with
  | val s => if (s =? "")%string then false else includes (toLowerCase s) sub
  | _ => false
  end.

(** [!filter || x === filter] *)
Definition unset_or_equal (filter : string) (x : js string) : bool :=
  (filter =? "")%string ||
  match x with
  | val s => (s =? filter)%string
  | _ => false
  end.

(** The callback of [articles.filter]. *)
Definition matches `{Host} (p : Page) (article : ViewArticle) : bool :=
  let search := toLowerCase (search p) in
  let matchesSearch :=
    (search =? "")%string
    || includes (toLowerCase (title_of article)) search
    || and_includes (keyword_of article) search
    || and_includes (description_of article) search in
  let matchesCategory := unset_or_equal (category_filter p) (category_of article) in
  let matchesPriority := unset_or_equal (priority_filter p) (priority_of article) in
  let matchesFunnel := unset_or_equal (funnel_filter p) (funnel_of article) in
  let matchesStatus := unset_or_equal (status_filter p) (status_of article) in
  matchesSearch && matchesCategory && matchesPriority && matchesFunnel
  && matchesStatus.

(** ** Rendering (app.js 150-280) *)

Definition quote : string := String (ascii_of_nat 34) EmptyString.
Definition newline : string := String (ascii_of_nat 10) EmptyString.

Definition no_match : string :=
  "<p class=" ++ quote ++ "text-gray-500 text-center py-8" ++ quote
  ++ ">No articles match your filters</p>".

(** [html || d] *)
Definition html_or (html d : string) : string :=
  if (html =? "")%string then d else html.

(** [l.map(f).join('')] *)
Definition map_join {A : Type} (f : A -> string) (l : list A) : string :=
  fold_right (fun a acc => f a ++ acc) "" l.

(** Grouping into an object of arrays: [if (!o[k]) o[k] = [];
    o[k].push(article)], the keys kept in the order they were added. *)
Fixpoint push_to {K : Type} (eqb : K -> K -> bool) (k : K) (a : ViewArticle)
    (o : list (K * list ViewArticle)) : list (K * list ViewArticle) :=
  match o with
  | [] => [(k, [a])]
  | (k', l) :: o' =>
      if eqb k k' then (k', (l ++ [a])%list) :: o'
      else (k', l) :: push_to eqb k a o'
  end.

Definition group_by {K : Type} (eqb : K -> K -> bool)
    (key : ViewArticle -> K) (l : list ViewArticle)
  : list (K * list ViewArticle) :=
  fold_left (fun o a => push_to eqb (key a) a o) l [].

(** [Array.prototype.sort] with a comparison, as a stable insertion. *)
Fixpoint insert_key {K V : Type} (le : K -> K -> bool) (x : K * V)
    (l : list (K * V)) : list (K * V) :=
  match l with
  | [] => [x]
  | y :: l' => if le (fst x) (fst y) then x :: l else y :: insert_key le x l'
  end.

Definition sort_keys {K V : Type} (le : K -> K -> bool) (l : list (K * V))
  : list (K * V) :=
  fold_right (insert_key le) [] l.

(** Keys of [weeks]: [String(article.week)]; two keys are the same
    property when they print alike. *)
Definition week_eqb (a b : js Z) : bool :=
  match a, b with
  | val x, val y => x =? y
  | null, null => true
  | undefined, undefined => true
  | _, _ => false
  end.

(** [parseInt(a) - parseInt(b) <= 0]; the difference is NaN, read as 0,
    when a key is not a number. *)
Definition week_le (a b : js Z) : bool :=
  match a, b with
  | val x, val y => x <=? y
  | _, _ => true
  end.

(** Keys of [categories]: [String(article.category)]. *)
Definition category_key (c : js string) : string :=
  match c with
  | undefined => "undefined"
  | null => "null"
  | val s => s
  end.

Definition renderListView `{Host} (p : Page) : string :=
  let html := map_join list_card (filteredArticles p) in
  html_or html no_match.

Definition renderCalendarView `{Host} (p : Page) : string :=
  let weeks := group_by week_eqb week_of (filteredArticles p) in
  let sortedWeeks := sort_keys week_le weeks in
  let html :=
    newline ++ "    <div class=" ++ quote ++ "grid gap-4" ++ quote ++ ">"
    ++ newline ++ "      "
    ++ map_join (fun g => week_section (fst g) (snd g)) sortedWeeks
    ++ newline ++ "    </div>" ++ newline ++ "  " in
  html_or html no_match.

Definition renderCategoryView `{Host} (p : Page) : string :=
  let categories :=
    group_by String.eqb (fun a => category_key (category_of a))
             (filteredArticles p) in
  let sortedCategories := sort_keys String.leb categories in
  let html :=
    map_join (fun g => category_section (fst g) (snd g)) sortedCategories in
  html_or html no_match.

Definition render `{Host} (p : Page) : Page :=
  let content :=
    if (view_mode p =? "calendar")%string then renderCalendarView p
    else if (view_mode p =? "category")%string then renderCategoryView p
    else renderListView p in
  {| articles := articles p; filteredArticles := filteredArticles p;
     search := search p; category_filter := category_filter p;
     priority_filter := priority_filter p; funnel_filter := funnel_filter p;
     status_filter := status_filter p; view_mode := view_mode p;
     results_count := Z.of_nat (List.length (filteredArticles p));
     content_area := content |}.

Definition set_lists (p : Page) (all : Loaded) (shown : list ViewArticle)
  : Page :=
  {| articles := all; filteredArticles := shown;
     search := search p; category_filter := category_filter p;
     priority_filter := priority_filter p; funnel_filter := funnel_filter p;
     status_filter := status_filter p; view_mode := view_mode p;
     results_count := results_count p; content_area := content_area p |}.

(** [applyFilters]: when [articles] is not an array the call to
    [filter] throws and the page stays as it is. *)
Definition applyFilters `{Host} (p : Page) : Page :=
  match articles p with
  | array l => render (set_lists p (array l) (filter (matches p) l))
  | object _ => p
  end.

(** ** Loading and seeding (app.js 46-80) *)

(** [seedArticles]: the answer of the import is not looked at, and a
    rejected request is caught and logged. *)
Definition seedArticles `{Host} (w : World) : World :=
  match staticArticles with
  | None => w
  | Some l =>
      fst (fetch (fun s now => post_articles_bulk s (map stringify l) now) w)
  end.

(** The handler of [catch] in [loadArticles]; [articles] may already
    have been assigned when the exception is thrown. *)
Definition fall_back `{Host} (p : Page) : Page :=
  match staticArticles with
  | Some l => set_lists p (array (map from_static l)) (map from_static l)
  | None => p
  end.

(** [articles = data; filteredArticles = [...articles]]: spreading
    something that is not an array throws. *)
Definition assign `{Host} (p : Page) (data : Loaded) : Page :=
  match data with
  | array l => set_lists p data l
  | object _ => fall_back (set_lists p data (filteredArticles p))
  end.

(** [data.length === 0] *)
Definition is_empty (data : Loaded) : bool :=
  match data with
  | array [] => true
  | _ => false
  end.

Definition loadArticles `{Host} (w : World) (p : Page) : World * Page :=
  match fetch (fun s _ => get_articles s) w with
  | (w1, None) => (w1, fall_back p)
  | (w1, Some j) =>
      let data := parse j in
      if is_empty data then
        let w2 := seedArticles w1 in
        match fetch (fun s _ => get_articles s) w2 with
        | (w3, None) => (w3, fall_back p)
        | (w3, Some j2) => (w3, assign p (parse j2))
        end
      else (w1, assign p data)
  end.

(** ** Notions the properties are stated with *)

(** The records of the store. *)
Definition table (s : Server) : list Row :=
  match pool s with
  | Some d => rows d
  | None => []
  end.

(** The count a statistics response carries under a name, if any. *)
Fixpoint lookup (key : string) (fields : list (string * Z)) : option Z :=
  match fields with
  | [] => None
  | (k, n) :: rest => if (k =? key)%string then Some n else lookup key rest
  end.

Definition count_of (key : string) (r : Response) : option Z :=
  match json r with
  | JCounts fields => lookup key fields
  | _ => None
  end.

(** The number of records whose priority, or status, is the given one. *)
Definition with_priority (t : string) (l : list Row) : Z :=
  Z.of_nat (List.length (filter (fun r => is_text (priority r) t) l)).


(** The write of one record of a bulk import is accepted or refused
    whatever the table holds: the checks bear on the record alone. *)
Definition writable (a : Article.t) : bool :=
  match proposed 0 0 (bulk_values a) with
  | Ok _ => true
  | Err _ => false
  end.


(** The single upsert that corresponds to a record of a bulk import:
    the same properties under the names POST /api/articles reads, with
    [status] and [notes] left out. *)
Definition as_body (a : Article.t) : Body.t :=
  {| Body.article_id := Article.id a;
     Body.title := Article.title a;
     Body.keyword := Article.keyword a;
     Body.intent := Article.intent a;
     Body.funnel := Article.funnel a;
     Body.description := Article.description a;
     Body.priority := Article.priority a;
     Body.word_count := Article.wordCount a;
     Body.category := Article.category a;
     Body.week := Article.week a;
     Body.status := undefined;
     Body.notes := undefined |}.






(** A supplied property replaces the stored value, one left out keeps it. *)
Definition supplied_or_kept {A : Type} (x : js A) (stored : option A)
  : option A :=
  match x with
  | val a => Some a
  | _ => stored
  end.

(** Two request properties that differ at most in being [null] in one
    body and left out of the other. *)
Definition null_or_omitted {A : Type} (x y : js A) : Prop :=
  x = y \/ (x = null /\ y = undefined) \/ (x = undefined /\ y = null).

(** The columns a patch has no hold on. *)
Definition same_descriptive_fields (r r' : Row) : Prop :=
  id r' = id r /\ article_id r' = article_id r /\ title r' = title r
  /\ keyword r' = keyword r /\ intent r' = intent r /\ funnel r' = funnel r
  /\ description r' = description r /\ priority r' = priority r
  /\ word_count r' = word_count r /\ category r' = category r
  /\ created_at r' = created_at r.

(** Between a record and its successor, none of the three patchable
    columns went from a value to NULL. *)
Definition nothing_cleared (r r' : Row) : Prop :=
  id r' = id r
  /\ (status r <> None -> status r' <> None)
  /\ (notes r <> None -> notes r' <> None)
  /\ (week r <> None -> week r' <> None).

(** [sub] occurs in [s]. *)
Definition is_substring (sub s : string) : Prop :=
  exists before after : string, s = before ++ sub ++ after.

(** The five predicates of the filter, in the words of the design: the
    search text occurs, case aside, in the title, the keyword or the
    description; every other filter is unset or equal to its field. *)
Definition occurs_in `{Host} (text : string) (field : js string) : Prop :=
  exists s : string,
    field = val s /\ is_substring (toLowerCase text) (toLowerCase s).

Definition text_predicate `{Host} (p : Page) (a : ViewArticle) : Prop :=
  occurs_in (search p) (val (title_of a))
  \/ occurs_in (search p) (keyword_of a)
  \/ occurs_in (search p) (description_of a).

Definition equality_predicate (filter : string) (field : js string) : Prop :=
  filter = "" \/ field = val filter.

Definition all_five `{Host} (p : Page) (a : ViewArticle) : Prop :=
  text_predicate p a
  /\ equality_predicate (category_filter p) (category_of a)
  /\ equality_predicate (priority_filter p) (priority_of a)
  /\ equality_predicate (funnel_filter p) (funnel_of a)
  /\ equality_predicate (status_filter p) (status_of a).

(** A host to run the view on: lower case over the ASCII letters, a
    given dataset, and templates that print the title or the group. *)
Definition lower_ascii (c : ascii) : ascii :=
  let n := nat_of_ascii c in
  if ((65 <=? n) && (n <=? 90))%nat then ascii_of_nat (n + 32) else c.

Fixpoint lower (s : string) : string :=
  match s with
  | EmptyString => EmptyString
  | String c s' => String (lower_ascii c) (lower s')
  end.

Definition plain_host (dataset : option (list Static.t)) : Host :=
  {| toLowerCase := lower;
     toLowerCase_empty := eq_refl;
     staticArticles := dataset;
     list_card := fun a => "<div>" ++ title_of a ++ "</div>";
     week_section := fun _ l =>
       "<div>" ++ map_join (fun a => title_of a) l ++ "</div>";
     category_section := fun c _ => "<h2>" ++ c ++ "</h2>" |}.

(** Sample data: a server started without DATABASE_URL, and a store
    holding one record that has been written and annotated. *)
Definition memory_only : Server := {| pool := None; dbReady := false |}.

Definition written_row : Row :=
  {| id := 1; article_id := "A1"; title := "Teleprompter basics";
     keyword := Some "teleprompter"; intent := Some "informational";
     funnel := Some "TOFU"; description := None; priority := Some "High";
     word_count := Some 1200; category := Some "Platform Guides";
     week := Some 3; status := Some "written"; notes := Some "draft done";
     created_at := 10; updated_at := 20 |}.

Definition one_record : Server :=
  {| pool := Some {| seq := 2; rows := [written_row] |}; dbReady := true |}.

(** The record above as the static dataset and the import carry it. *)
Definition basics : Static.t :=
  {| Static.id := "A1"; Static.title := "Teleprompter basics";
     Static.keyword := val "teleprompter";
     Static.intent := val "informational"; Static.funnel := val "TOFU";
     Static.description := undefined; Static.priority := val "High";
     Static.wordCount := val 1200; Static.category := val "Platform Guides";
     Static.week := val 3 |}.


Definition fresh (k : string) (w : Z) : Article.t :=
  {| Article.id := val k; Article.title := val "Script pacing";
     Article.keyword := undefined; Article.intent := undefined;
     Article.funnel := undefined; Article.description := undefined;
     Article.priority := val "Medium"; Article.wordCount := val 800;
     Article.category := val "Script Writing"; Article.week := val w |}.

Definition empty_page : Page :=
  {| articles := array []; filteredArticles := [];
     search := ""; category_filter := ""; priority_filter := "";
     funnel_filter := ""; status_filter := ""; view_mode := "list";
     results_count := 0; content_area := "" |}.

(** A record with its status and its time of last update replaced. *)
Definition restamp (r : Row) (st : option string) (now : Z) : Row :=
  {| id := id r; article_id := article_id r; title := title r;
     keyword := keyword r; intent := intent r; funnel := funnel r;
     description := description r; priority := priority r;
     word_count := word_count r; category := category r; week := week r;
     status := st; notes := notes r;
     created_at := created_at r; updated_at := now |}.

(** What the calendar writes for no week at all. *)
Definition empty_grid : string :=
  newline ++ "    <div class=" ++ quote ++ "grid gap-4" ++ quote ++ ">"
  ++ newline ++ "      " ++ newline ++ "    </div>" ++ newline ++ "  ".

(** Two stored records to filter, and a page that holds them. *)
Definition widget : Row :=
  {| id := 1; article_id := "W1"; title := "Widget"; keyword := None;
     intent := None; funnel := None; description := None;
     priority := Some "High"; word_count := None; category := Some "A";
     week := Some 1; status := Some "planned"; notes := None;
     created_at := 0; updated_at := 0 |}.

Definition gadget : Row :=
  {| id := 2; article_id := "G1"; title := "Gadget"; keyword := None;
     intent := None; funnel := None; description := None;
     priority := Some "Low"; word_count := None; category := Some "B";
     week := Some 2; status := Some "planned"; notes := None;
     created_at := 0; updated_at := 0 |}.

Definition two_records (text cat : string) : Page :=
  {| articles := array [from_store widget; from_store gadget];
     filteredArticles := [from_store widget; from_store gadget];
     search := text; category_filter := cat; priority_filter := "";
     funnel_filter := ""; status_filter := ""; view_mode := "list";
     results_count := 2; content_area := "" |}.

(** A planned record of a given key and week. *)
Definition planned_in (n : Z) (k : string) (w : Z) : Row :=
  {| id := n; article_id := k; title := "Lighting on a budget";
     keyword := None; intent := None; funnel := None; description := None;
     priority := Some "Medium"; word_count := None;
     category := Some "Production & Setup"; week := Some w;
     status := Some "planned"; notes := None;
     created_at := 0; updated_at := 0 |}.

(** ** The rest of the view: counters, category options, status change *)

(** The four counters of the page header, as the values last assigned
    to their [textContent]. *)
Record Counters : Type := mkCounters {
  total_count : js Z;
  high_count : js Z;
  medium_count : js Z;
  low_count : js Z
}.

(** [stats.key] of a parsed answer: [undefined] when the object has no
    such property. *)
Definition property (key : string) (j : Json) : js Z :=
  match j with
  | JCounts fields =>
      match lookup key fields with
      | Some n => val n
      | None => undefined
      end
  | _ => undefined
  end.

(** [a.priority === t] *)
Definition priority_is (t : string) (a : ViewArticle) : bool :=
  match priority_of a with
  | val s => (s =? t)%string
  | _ => false
  end.

Definition count_priority (t : string) (l : list ViewArticle) : Z :=
  Z.of_nat (List.length (filter (priority_is t) l)).

(** [updateStats] (app.js 93-110): the counters are taken from the
    answer of the statistics route; when the request is rejected they
    are counted over [articles], and if that is not an array the call
    to [filter] throws before any counter is assigned. *)
Definition updateStats (w : World) (p : Page) (c : Counters)
  : World * Counters :=
  match fetch (fun s _ => get_stats s) w with
  | (w', Some stats) =>
      (w', {| total_count := property "total" stats;
              high_count := property "high_priority" stats;
              medium_count := property "medium_priority" stats;
              low_count := property "low_priority" stats |})
  | (w', None) =>
      match articles p with
      | array l =>
          (w', {| total_count := val (Z.of_nat (List.length l));
                  high_count := val (count_priority "High" l);
                  medium_count := val (count_priority "Medium" l);
                  low_count := val (count_priority "Low" l) |})
      | object _ => (w', c)
      end
  end.

(** Membership in a [Set] of categories: [undefined], [null] and each
    text are values of their own. *)
Definition same_value (a b : js string) : bool :=
  match a, b with
  | undefined, undefined => true
  | null, null => true
  | val x, val y => (x =? y)%string
  | _, _ => false
  end.

(** [new Set(l)]: the values in the order they first occur. *)
Definition set_add (s : list (js string)) (x : js string)
  : list (js string) :=
  if existsb (same_value x) s then s else (s ++ [x])%list.

Definition new_Set (l : list (js string)) : list (js string) :=
  fold_left set_add l [].

(** The order of [sort()] without a comparison: [undefined] goes last,
    every other value is compared by the text it prints as. *)
Definition default_le (a b : js string) : bool :=
  match a, b with
  | _, undefined => true
  | undefined, _ => false
  | _, _ => (category_key a <=? category_key b)%string
  end.

Fixpoint insert_by {A : Type} (le : A -> A -> bool) (x : A) (l : list A)
  : list A :=
  match l with
  | [] => [x]
  | y :: l' => if le x y then x :: l else y :: insert_by le x l'
  end.

Definition sort_by {A : Type} (le : A -> A -> bool) (l : list A) : list A :=
  fold_right (insert_by le) [] l.

(** [populateCategoryFilter] (app.js 82-91): the options of the
    category control after one option per distinct category has been
    appended; [articles.map] throws when [articles] is not an array. *)
Definition populateCategoryFilter (p : Page) (options : list (js string))
  : list (js string) :=
  match articles p with
  | array l =>
      (options ++ sort_by default_le (new_Set (map category_of l)))%list
  | object _ => options
  end.



(** ** Notions for the properties of the whole store *)

(** A text, if any, is within a column width. *)
Definition fits (n : nat) (v : option string) : Prop :=
  match v with
  | Some s => (String.length s <= n)%nat
  | None => True
  end.

(** Every text of the row is within the width of its column. *)
Definition row_fits (r : Row) : Prop :=
  (String.length (article_id r) <= 10)%nat
  /\ fits 255 (keyword r) /\ fits 100 (intent r) /\ fits 50 (funnel r)
  /\ fits 20 (priority r) /\ fits 100 (category r) /\ fits 50 (status r).

(** A SET list that leaves the two keys alone and writes texts that fit. *)
Definition keeps_keys (f : Z -> Row -> Row -> Row) : Prop :=
  forall now old ex,
    id (f now old ex) = id old
    /\ article_id (f now old ex) = article_id old
    /\ (row_fits old -> row_fits ex -> row_fits (f now old ex)).

(** What the schema promises of the table: [id] is a key drawn from
    the sequence, [article_id] is a key, the texts fit their columns. *)
Definition consistent (d : Db) : Prop :=
  NoDup (map id (rows d))
  /\ NoDup (map article_id (rows d))
  /\ Forall (fun r => id r < seq d) (rows d)
  /\ Forall row_fits (rows d).

Definition store_consistent (s : Server) : Prop :=
  match pool s with
  | Some d => consistent d
  | None => True
  end.

(** A record whose key is [k] with its time of last update set. *)
Definition touch (now : Z) (k : string) (r : Row) : Row :=
  if (article_id r =? k)%string then restamp r (status r) now else r.

(** The row the same VALUES propose at another value of the sequence
    and another time. *)
Definition proposed_anew (next now : Z) (ex : Row) : Row :=
  {| id := next; article_id := article_id ex; title := title ex;
     keyword := keyword ex; intent := intent ex; funnel := funnel ex;
     description := description ex; priority := priority ex;
     word_count := word_count ex; category := category ex;
     week := week ex; status := status ex; notes := notes ex;
     created_at := now; updated_at := now |}.

(** A SET list that, run again with the same VALUES, changes nothing
    but the time of last update. *)
Definition settles (f : Z -> Row -> Row -> Row) : Prop :=
  forall t1 t2 n2 ex,
    (forall x, f t2 (f t1 x ex) (proposed_anew n2 t2 ex)
               = restamp (f t1 x ex) (status (f t1 x ex)) t2)
    /\ f t2 ex (proposed_anew n2 t2 ex) = restamp ex (status ex) t2.



(** The page once a category has been picked in the control. *)
Definition pick_category (c : string) (p : Page) : Page :=
  {| articles := articles p; filteredArticles := filteredArticles p;
     search := search p; category_filter := c;
     priority_filter := priority_filter p; funnel_filter := funnel_filter p;
     status_filter := status_filter p; view_mode := view_mode p;
     results_count := results_count p; content_area := content_area p |}.

(** The records listed, in the order of the list route. *)
Definition listed (d : Db) : list Row := order_by week_article_le (rows d).

(** * Properties of the record store *)

Lemma available_unready (s : Server) :
  pool s = None \/ dbReady s = false -> available s = None.
Proof.
  unfold available. intros [Hp | Hr].
  - now rewrite Hp.
  - rewrite Hr. now destruct (pool s).
Qed.

Lemma available_table (s : Server) (d : Db) :
  available s = Some d -> table s = rows d /\ s = {| pool := Some d; dbReady := true |}.
Proof.
  unfold available, table. destruct s as [[d0|] [|]]; simpl; try discriminate.
  intros [= ->]. split; reflexivity.
Qed.

(** C3.  While the store is not ready ([!pool || !dbReady]) the list is
    answered with an empty array and status 200, the statistics with
    counts that are all zero and status 200, and reading one record,
    upserting, patching, deleting and importing are each refused with
    status 503, the server being left as it was. *)
Theorem not_ready_degrades_or_refuses (s : Server) :
  pool s = None \/ dbReady s = false ->
  get_articles s = (s, {| code := 200; json := JRows [] |})
  /\ (exists fields,
        get_stats s = (s, {| code := 200; json := JCounts fields |})
        /\ fields <> [] /\ Forall (fun f => snd f = 0) fields)
  /\ (forall i, get_article s i
                = (s, {| code := 503; json := JError Database_not_available |}))
  /\ (forall b now, post_article s b now
                = (s, {| code := 503; json := JError Database_not_available |}))
  /\ (forall i b now, patch_article s i b now
                = (s, {| code := 503; json := JError Database_not_available |}))
  /\ (forall i, delete_article s i
                = (s, {| code := 503; json := JError Database_not_available |}))
  /\ (forall l now, post_articles_bulk s l now
                = (s, {| code := 503; json := JError Database_not_available |})).
Proof.
  intros H. apply available_unready in H.
  unfold get_articles, get_stats, get_article, post_article, patch_article,
    delete_article, post_articles_bulk.
  rewrite H. repeat split.
  eexists. split; [reflexivity |]. split; [discriminate |].
  repeat constructor.
Qed.

Lemma not_ready_degrades_or_refuses_witness :
  get_articles memory_only = (memory_only, {| code := 200; json := JRows [] |})
  /\ post_article memory_only (as_body (fresh "C3" 4)) 7
     = (memory_only, {| code := 503; json := JError Database_not_available |}).
Proof.
  destruct (not_ready_degrades_or_refuses memory_only (or_introl eq_refl))
    as (Hlist & _ & _ & Hpost & _).
  split; [exact Hlist | apply Hpost].
Defined.



(** Taking a statement apart: each coercion and each constraint of
    [proposed] either passes or ends the statement. *)
Ltac split_result H :=
  repeat match type of H with
         | context [match ?m with Ok _ => _ | Err _ => _ end] =>
             let E := fresh "E" in
             destruct m eqn:E; try discriminate H
         end.


(** The row a statement proposes depends on the sequence and the clock
    only through [id] and the two timestamps; whether it is accepted
    depends on neither. *)
Lemma proposed_at (next now : Z) (v : Values) :
  proposed next now v =
  match proposed 0 0 v with
  | Ok r =>
      Ok {| id := next; article_id := article_id r; title := title r;
            keyword := keyword r; intent := intent r; funnel := funnel r;
            description := description r; priority := priority r;
            word_count := word_count r; category := category r;
            week := week r; status := status r; notes := notes r;
            created_at := now; updated_at := now |}
  | Err e => Err e
  end.
Proof.
  unfold proposed, bind.
  destruct (varchar 10 (v_article_id v)); [| reflexivity].
  destruct (varchar 255 (v_keyword v)); [| reflexivity].
  destruct (varchar 100 (v_intent v)); [| reflexivity].
  destruct (varchar 50 (v_funnel v)); [| reflexivity].
  destruct (varchar 20 (v_priority v)); [| reflexivity].
  destruct (varchar 100 (v_category v)); [| reflexivity].
  destruct (varchar 50 (v_status v)); [| reflexivity].
  destruct (not_null "article_id" a); [| reflexivity].
  destruct (not_null "title" (v_title v)); reflexivity.
Qed.

Lemma proposed_fields (next now : Z) (v : Values) (r : Row) :
  proposed next now v = Ok r ->
  id r = next /\ created_at r = now /\ updated_at r = now
  /\ title r = match v_title v with Some t => t | None => title r end
  /\ description r = v_description v /\ word_count r = v_word_count v
  /\ week r = v_week v /\ notes r = v_notes v
  /\ varchar 50 (v_status v) = Ok (status r).
Proof.
  unfold proposed, bind. intros H. split_result H.
  injection H as <-. simpl. repeat split.
  destruct (v_title v); simpl in *; congruence.
Qed.

(** The status a single upsert proposes is never NULL, and is 'planned'
    whenever the body leaves [status] out, sends [null] or sends the
    empty string: [COALESCE(EXCLUDED.status, sf_articles.status)] always
    takes its first argument. *)
Lemma upsert_proposes_a_status (next now : Z) (b : Body.t) (r : Row) :
  proposed next now (upsert_values b) = Ok r ->
  (forall old, status (set_upsert now old r) = status r)
  /\ (Body.status b = undefined \/ Body.status b = null
      \/ Body.status b = val "" -> status r = Some "planned").
Proof.
  intros H. apply proposed_fields in H.
  destruct H as (_ & _ & _ & _ & _ & _ & _ & _ & Hs).
  simpl in Hs. split.
  - intros old. simpl.
    unfold varchar in Hs.
    destruct (String.length _ <=? 50)%nat; [now injection Hs as <- |].
    destruct (all_spaces _); [now injection Hs as <- | discriminate].
  - intros Hb.
    assert (Hp : or_else (Body.status b) "planned" = "planned")
      by (destruct Hb as [-> | [-> | ->]]; reflexivity).
    rewrite Hp in Hs. now injection Hs as <-.
Qed.

(** Whatever the store holds, the record a single upsert without a
    status answers with is 'planned': inserted so, or reset to it. *)
Lemma upsert_without_status_answers_planned (s s' : Server) (b : Body.t)
    (now : Z) (r : Row) :
  Body.status b = undefined \/ Body.status b = null
  \/ Body.status b = val "" ->
  post_article s b now = (s', {| code := 200; json := JRow r |}) ->
  status r = Some "planned".
Proof.
  intros Hb. unfold post_article.
  destruct (available s) as [d|]; [| discriminate].
  unfold insert_on_conflict, bind.
  destruct (proposed (seq d) now (upsert_values b)) as [ex|e] eqn:Hex;
    [| discriminate].
  destruct (upsert_proposes_a_status _ _ _ _ Hex) as [Hset Hpl].
  destruct (find (conflicts ex) (rows d)) as [old|];
    intros [= _ <-]; [rewrite Hset |]; now apply Hpl.
Qed.

(** C1 fails on the code.  The stored record A1 is written and carries
    a note; upserting A1 again with the same descriptive fields and
    neither [status] nor [notes] is answered with status 200 and leaves
    one record, the stored one with its note kept, but with its status
    set to 'planned'. *)
Theorem upsert_resets_stored_status :
  let out := post_article one_record (as_body (stringify basics)) 30 in
  status written_row = Some "written"
  /\ table one_record = [written_row]
  /\ code (snd out) = 200
  /\ table (fst out) = [restamp written_row (Some "planned") 30].
Proof. vm_compute. repeat split. Qed.



(** On the stored record A1, which is written, the bulk import of a
    record and the single upsert that corresponds to it part ways: the
    import keeps the stored status, the upsert sets it to 'planned'. *)
Lemma bulk_and_upsert_part_on_status :
  let a := stringify basics in
  let bulk := post_articles_bulk one_record [a] 30 in
  let single := post_article one_record (as_body a) 30 in
  code (snd bulk) = 200 /\ code (snd single) = 200
  /\ table (fst bulk) = [restamp written_row (Some "written") 30]
  /\ table (fst single) = [restamp written_row (Some "planned") 30].
Proof. vm_compute. repeat split. Qed.

(** *** The bulk import as one transaction *)

(** A write of the import is accepted exactly when the record is
    [writable], whatever the table and the clock. *)
Lemma write_accepted_iff (now : Z) (a : Article.t) (d : Db) :
  (exists d' r, insert_on_conflict set_bulk now (bulk_values a) d = Ok (d', r))
  <-> writable a = true.
Proof.
  unfold writable, insert_on_conflict, bind. rewrite proposed_at.
  destruct (proposed 0 0 (bulk_values a)) as [r0|e]; split.
  - reflexivity.
  - intros _.
    match goal with
    | |- context [find ?f ?l] => destruct (find f l)
    end; eauto.
  - intros (d' & r & H). discriminate H.
  - discriminate.
Qed.

Lemma write_refused_iff (now : Z) (a : Article.t) (d : Db) :
  (exists e, insert_on_conflict set_bulk now (bulk_values a) d = Err e)
  <-> writable a = false.
Proof.
  split.
  - intros [e He]. destruct (writable a) eqn:Hw; [| reflexivity].
    apply (write_accepted_iff now a d) in Hw.
    destruct Hw as (d' & r & Hok). congruence.
  - intros Hw.
    destruct (insert_on_conflict set_bulk now (bulk_values a) d)
      as [[d' r]|e] eqn:Hi; [| eauto].
    assert (writable a = true) by (apply (write_accepted_iff now a d); eauto).
    congruence.
Qed.





(** *** The bulk import against single upserts *)

Lemma with_db_available (s : Server) (d d' : Db) :
  available s = Some d ->
  available (with_db s d') = Some d' /\ with_db s d = s
  /\ forall x, with_db (with_db s d') x = with_db s x.
Proof.
  intros Hs. destruct (available_table s d Hs) as [_ ->].
  repeat split.
Qed.

















(** *** Patching one record *)



(** Row by row, what an UPDATE leaves behind is the old row or the row
    its SET list made of it. *)
Lemma update_where_id_rows (f : Row -> Result Row) (i : Z) :
  forall l l' ret,
    update_where_id f i l = Ok (l', ret) ->
    Forall2 (fun r r' => r' = r \/ f r = Ok r') l l'.
Proof.
  induction l as [| x l IH]; intros l' ret H; simpl in H.
  - injection H as <- <-. constructor.
  - unfold bind in H. destruct (id x =? i).
    + destruct (f x) as [x'|] eqn:Hf; [| discriminate].
      destruct (update_where_id f i l) as [[l0 ret0]|]; [| discriminate].
      injection H as <- <-. constructor; [now right | now apply (IH _ ret0)].
    + destruct (update_where_id f i l) as [[l0 ret0]|]; [| discriminate].
      injection H as <- <-. constructor; [now left | now apply (IH _ ret0)].
Qed.

Lemma prepareValue_supplied {A : Type} (x : js A) (stored : option A) :
  COALESCE (prepareValue x) stored = supplied_or_kept x stored.
Proof. now destruct x. Qed.



Lemma set_patch_clears_nothing (now : Z) (p1 p2 : option string)
    (p3 : option Z) (r r' : Row) :
  set_patch now p1 p2 p3 r = Ok r' -> nothing_cleared r r'.
Proof.
  unfold set_patch, bind. intros H.
  destruct (varchar 50 (COALESCE p1 (status r))) as [c|] eqn:Hv;
    [| discriminate].
  injection H as <-. unfold nothing_cleared. simpl. repeat split.
  - intros Hold Hnew. subst c. unfold varchar in Hv.
    destruct (status r) as [x|]; [| congruence].
    destruct p1; simpl in Hv;
      repeat match type of Hv with
             | context [if ?c then _ else _] => destruct c
             end; discriminate.
  - destruct p2; simpl; congruence.
  - destruct p3; simpl; congruence.
Qed.

Lemma patched_rows_clear_nothing (f : Row -> Result Row) :
  (forall r r', f r = Ok r' -> nothing_cleared r r') ->
  forall l l',
    Forall2 (fun r r' => r' = r \/ f r = Ok r') l l' ->
    Forall2 nothing_cleared l l'.
Proof.
  intros Hf l l' H.
  induction H as [| r r' l0 l0' Hr _ IH]; constructor; [| exact IH].
  destruct Hr as [-> | Hr]; [| now apply Hf].
  unfold nothing_cleared. auto.
Qed.

(** C10.  A patch whose body sets a property to [null] does what the
    patch with that property left out does; and no patch turns a stored
    status, note or week into NULL: record by record, a column of the
    three that held a value holds one afterwards. *)
Theorem patch_null_is_omission (s : Server) (i : Z) (b b' : Patch.t)
    (now : Z) :
  null_or_omitted (Patch.status b) (Patch.status b') ->
  null_or_omitted (Patch.notes b) (Patch.notes b') ->
  null_or_omitted (Patch.week b) (Patch.week b') ->
  patch_article s i b now = patch_article s i b' now
  /\ Forall2 nothing_cleared
             (table s) (table (fst (patch_article s i b now))).
Proof.
  intros Hst Hn Hw. split.
  - assert (E : forall (A : Type) (x y : js A),
               null_or_omitted x y -> prepareValue x = prepareValue y).
    { intros A x y [-> | [[-> ->] | [-> ->]]]; reflexivity. }
    unfold patch_article.
    now rewrite (E _ _ _ Hst), (E _ _ _ Hn), (E _ _ _ Hw).
  - assert (Hsame : forall l : list Row, Forall2 nothing_cleared l l).
    { induction l; constructor; unfold nothing_cleared; auto. }
    unfold patch_article.
    destruct (available s) as [d|] eqn:Hs; [| apply Hsame].
    destruct (available_table s d Hs) as [Ht _]. rewrite Ht.
    unfold update_patch, bind.
    destruct (update_where_id _ i (rows d)) as [[l' ret]|e] eqn:Hu.
    + apply update_where_id_rows in Hu.
      apply patched_rows_clear_nothing in Hu;
        [| apply set_patch_clears_nothing].
      destruct ret; exact Hu.
    + simpl. rewrite Ht. apply Hsame.
Qed.

(** [{status: null, week: 5}] against [{week: 5}] on the record A1. *)
Lemma patch_null_is_omission_witness :
  patch_article one_record 1
    {| Patch.status := null; Patch.notes := undefined; Patch.week := val 5 |} 30
  = patch_article one_record 1
      {| Patch.status := undefined; Patch.notes := undefined;
         Patch.week := val 5 |} 30.
Proof.
  apply (patch_null_is_omission one_record 1
           {| Patch.status := null; Patch.notes := undefined;
              Patch.week := val 5 |}
           {| Patch.status := undefined; Patch.notes := undefined;
              Patch.week := val 5 |} 30).
  - right. left. split; reflexivity.
  - left. reflexivity.
  - left. reflexivity.
Defined.

(** * Properties of the planning view *)

(** *** Filtering *)

Lemma prefix_iff (a b : string) :
  prefix a b = true <-> exists rest, b = a ++ rest.
Proof.
  revert b. induction a as [| c a IH]; intros b.
  - split; [intros _; now exists b | destruct b; reflexivity].
  - destruct b as [| c' b]; simpl.
    + split; [discriminate | intros [rest Hr]; discriminate Hr].
    + destruct (ascii_dec c c') as [-> | Hne].
      * rewrite IH. split; intros [rest Hr]; exists rest.
        -- now rewrite Hr.
        -- now injection Hr.
      * split; [discriminate |].
        intros [rest Hr]. injection Hr as Hc _. congruence.
Qed.

Lemma includes_iff (s sub : string) :
  includes s sub = true <-> is_substring sub s.
Proof.
  unfold is_substring. split.
  - induction s as [| c s IH]; cbn [includes]; rewrite orb_true_iff.
    + intros [Hp | Hf]; [| discriminate].
      apply prefix_iff in Hp. destruct Hp as [rest Hr].
      now exists "", rest.
    + intros [Hp | Hi].
      * apply prefix_iff in Hp. destruct Hp as [rest Hr].
        now exists "", rest.
      * destruct (IH Hi) as (before & after & Hs).
        exists (String c before), after. simpl. now rewrite Hs.
  - intros (before & after & Hs). revert s Hs.
    induction before as [| c before IH]; intros s Hs; simpl in Hs.
    + assert (Hp : prefix sub s = true) by (apply prefix_iff; eauto).
      destruct s; cbn [includes]; rewrite Hp; reflexivity.
    + subst s. cbn [includes]. rewrite (IH _ eq_refl). apply orb_true_r.
Qed.

Lemma substring_of_empty (sub : string) : is_substring sub "" -> sub = "".
Proof.
  intros (before & after & H).
  destruct before; [| discriminate H]. simpl in H.
  destruct sub; [reflexivity | discriminate H].
Qed.

Lemma empty_is_substring (s : string) : is_substring "" s.
Proof. now exists "", s. Qed.

Lemma unset_or_equal_iff (filter : string) (x : js string) :
  unset_or_equal filter x = true <-> equality_predicate filter x.
Proof.
  unfold unset_or_equal, equality_predicate. rewrite orb_true_iff.
  rewrite String.eqb_eq. split; (intros [H | H]; [now left | right]).
  - destruct x as [| | s]; try discriminate.
    apply String.eqb_eq in H. now subst.
  - subst x. apply String.eqb_refl.
Qed.

Lemma and_includes_iff `{Host} (x : js string) (text : string) :
  toLowerCase text <> "" ->
  and_includes x (toLowerCase text) = true <-> occurs_in text x.
Proof.
  intros Hne. unfold and_includes, occurs_in. split.
  - destruct x as [| | s]; try discriminate.
    destruct (String.eqb_spec s ""); [discriminate |].
    intros Hi. exists s. split; [reflexivity | now apply includes_iff].
  - intros (s & -> & Hs).
    destruct (String.eqb_spec s "") as [-> | _].
    + rewrite toLowerCase_empty in Hs. apply substring_of_empty in Hs.
      contradiction.
    + now apply includes_iff.
Qed.

(** The callback of the filter decides the conjunction of the five
    predicates. *)
Lemma matches_iff `{Host} (p : Page) (a : ViewArticle) :
  matches p a = true <-> all_five p a.
Proof.
  unfold matches, all_five. rewrite !andb_true_iff, !unset_or_equal_iff.
  assert (Htext :
    (toLowerCase (search p) =? "")%string
    || includes (toLowerCase (title_of a)) (toLowerCase (search p))
    || and_includes (keyword_of a) (toLowerCase (search p))
    || and_includes (description_of a) (toLowerCase (search p)) = true
    <-> text_predicate p a).
  { unfold text_predicate.
    destruct (String.eqb_spec (toLowerCase (search p)) "") as [E | Hne].
    - simpl. split; [intros _ | reflexivity].
      left. exists (title_of a). split; [reflexivity |].
      rewrite E. apply empty_is_substring.
    - simpl. rewrite !orb_true_iff, !(and_includes_iff _ _ Hne).
      rewrite includes_iff. unfold occurs_in at 1. split.
      + intros [[Ht | Hk] | Hd]; [left | right; left | right; right];
          try assumption.
        exists (title_of a). split; [reflexivity | exact Ht].
      + intros [(s & Es & Hs) | [Hk | Hd]]; [left; left | left; right | right];
          try assumption.
        injection Es as <-. exact Hs. }
  rewrite Htext. tauto.
Qed.

(** C9.  Whatever the record list and the five controls hold, the
    filtered list is the record list cut down, in its order, to the
    records for which all five predicates hold: the search text occurs,
    case aside, in the title, the keyword or the description, and each
    of category, priority, funnel and status is unset or equal to the
    record's. *)
Theorem filter_keeps_exactly_the_matches `{Host} (p : Page)
    (l : list ViewArticle) :
  articles p = array l ->
  (exists keep : ViewArticle -> bool,
      (forall a, keep a = true <-> all_five p a)
      /\ filteredArticles (applyFilters p) = filter keep l)
  /\ (forall a, In a (filteredArticles (applyFilters p))
                <-> In a l /\ all_five p a).
Proof.
  intros Hl. unfold applyFilters. rewrite Hl. simpl. split.
  - exists (matches p). split; [apply matches_iff | reflexivity].
  - intros a. rewrite filter_In, matches_iff. reflexivity.
Qed.

(** Filtering the two records by category A keeps the widget. *)
Lemma filter_keeps_exactly_the_matches_witness :
  In (from_store widget)
     (filteredArticles (@applyFilters (plain_host None) (two_records "" "A")))
  <-> In (from_store widget) [from_store widget; from_store gadget]
      /\ @all_five (plain_host None) (two_records "" "A") (from_store widget).
Proof.
  apply (proj2 (@filter_keeps_exactly_the_matches (plain_host None)
                  (two_records "" "A")
                  [from_store widget; from_store gadget] eq_refl)).
Defined.

Example filter_by_category :
  filteredArticles (@applyFilters (plain_host None) (two_records "" "A"))
  = [from_store widget].
Proof. reflexivity. Qed.

Example filter_by_text_any_case :
  filteredArticles (@applyFilters (plain_host None) (two_records "WiDg" ""))
  = [from_store widget].
Proof. reflexivity. Qed.

Example filter_by_both :
  filteredArticles (@applyFilters (plain_host None) (two_records "widg" "B"))
  = [].
Proof. reflexivity. Qed.

(** *** Grouping and ordering *)

Example calendar_groups_by_ascending_week :
  map (fun g => (fst g, map title_of (snd g)))
      (sort_keys week_le
         (group_by week_eqb week_of
            [from_store (planned_in 1 "P5" 5); from_store widget;
             from_store (planned_in 2 "Q5" 5);
             from_store (planned_in 3 "P13" 13)]))
  = [ (val 1, ["Widget"]);
      (val 5, ["Lighting on a budget"; "Lighting on a budget"]);
      (val 13, ["Lighting on a budget"]) ].
Proof. reflexivity. Qed.

Example list_is_ordered_by_week_then_key :
  map article_id
      (order_by week_article_le
         [planned_in 1 "P5" 5; planned_in 2 "B1" 1; planned_in 3 "A5" 5;
          planned_in 4 "A1" 1])
  = ["A1"; "B1"; "A5"; "P5"].
Proof. reflexivity. Qed.

(** *** Rendering nothing *)

Lemma html_or_nonempty (c : ascii) (s d : string) :
  html_or (String c s) d = String c s.
Proof. reflexivity. Qed.

(** C7 fails on the code.  With no record to show, the flat list and
    the category view write the "No articles match your filters"
    paragraph, but the calendar writes its grid container with nothing
    in it; and whatever the records, what the calendar writes is never
    that paragraph, since the text it builds always opens the grid. *)
Theorem calendar_never_writes_the_placeholder `{Host} (p : Page) :
  let none := set_lists p (articles p) [] in
  renderListView none = no_match
  /\ renderCategoryView none = no_match
  /\ renderCalendarView none = empty_grid
  /\ empty_grid <> no_match
  /\ renderCalendarView p <> no_match.
Proof.
  cbv zeta. repeat split.
  - unfold empty_grid, no_match, newline. simpl. discriminate.
  - unfold renderCalendarView, no_match, newline. simpl.
    rewrite html_or_nonempty. discriminate.
Qed.

(** *** Loading from a store that is not ready *)

Lemma get_articles_not_ready (s : Server) :
  available s = None -> get_articles s = (s, res_json (JRows [])).
Proof. unfold get_articles. now intros ->. Qed.

Lemma post_articles_bulk_not_ready (s : Server) (l : list Article.t) (now : Z) :
  available s = None -> fst (post_articles_bulk s l now) = s.
Proof. unfold post_articles_bulk. now intros ->. Qed.

Lemma carried_all (w : World) :
  Forall (fun b => b = true) (net w) -> carried w = true.
Proof.
  unfold carried. destruct (net w) as [| b n]; [reflexivity |].
  intros H. now inversion H.
Qed.

Lemma after_request_all (w : World) (s : Server) :
  Forall (fun b => b = true) (net w) ->
  Forall (fun b => b = true) (net (after_request w s)).
Proof.
  simpl. destruct (net w); simpl; [constructor |].
  intros H. now inversion H.
Qed.

(** C6 fails on the code.  When the store is not ready and the network
    carries every request, the list comes back empty, the seeding is
    refused with status 503 (or not attempted, without a dataset), the
    list comes back empty again, and the view is left with no record at
    all, whatever the static dataset holds. *)
Theorem load_from_unready_store_shows_nothing `{Host} (w : World) (p : Page) :
  pool (server w) = None \/ dbReady (server w) = false ->
  Forall (fun b => b = true) (net w) ->
  articles (snd (loadArticles w p)) = array []
  /\ filteredArticles (snd (loadArticles w p)) = []
  /\ server (fst (loadArticles w p)) = server w.
Proof.
  intros Hs Hnet. apply available_unready in Hs.
  assert (Hload : exists w', loadArticles w p = (w', set_lists p (array []) [])
                             /\ server w' = server w).
  { unfold loadArticles, fetch at 1.
    rewrite (carried_all w Hnet), (get_articles_not_ready _ Hs).
    cbn [json res_json parse map is_empty].
    set (w1 := after_request w (server w)).
    assert (Hnet1 : Forall (fun b => b = true) (net w1))
      by now apply after_request_all.
    assert (Hseed : server (seedArticles w1) = server w
                    /\ Forall (fun b => b = true) (net (seedArticles w1))).
    { unfold seedArticles. destruct staticArticles as [l|]; [| now split].
      unfold fetch. rewrite (carried_all w1 Hnet1).
      destruct (post_articles_bulk (server w1) (map stringify l) (clock w1))
        as [s' r] eqn:Hb.
      assert (s' = server w).
      { change s' with (fst (s', r)). rewrite <- Hb.
        now apply post_articles_bulk_not_ready. }
      subst s'. split; [reflexivity | now apply after_request_all]. }
    destruct Hseed as [Hsrv Hnet2].
    unfold fetch. rewrite (carried_all _ Hnet2), Hsrv.
    rewrite (get_articles_not_ready _ Hs). simpl.
    eexists. split; [reflexivity | reflexivity]. }
  destruct Hload as (w' & -> & Hw'). simpl. repeat split. exact Hw'.
Qed.

(** The page of a server started without a database, with a dataset of
    one entry at hand: the view holds no record, not the dataset. *)
Lemma load_from_unready_store_shows_nothing_witness :
  articles (snd (@loadArticles (plain_host (Some [basics]))
                   {| server := memory_only; clock := 0; net := [] |}
                   empty_page))
  = array []
  /\ array [] <> array (map from_static [basics]).
Proof.
  split.
  - apply (@load_from_unready_store_shows_nothing (plain_host (Some [basics]))
             {| server := memory_only; clock := 0; net := [] |} empty_page).
    + left. reflexivity.
    + constructor.
  - discriminate.
Defined.

(** When the promise of the list request rejects, the handler of
    [catch] does fall back on the dataset. *)
Lemma load_falls_back_when_fetch_rejects `{Host} (w : World) (p : Page)
    (l : list Static.t) :
  staticArticles = Some l -> carried w = false ->
  articles (snd (loadArticles w p)) = array (map from_static l)
  /\ filteredArticles (snd (loadArticles w p)) = map from_static l.
Proof.
  intros Hd Hc. unfold loadArticles, fetch. rewrite Hc. simpl.
  unfold fall_back. rewrite Hd. split; reflexivity.
Qed.

(** * Further properties of the record store *)

(** *** What the schema promises is kept by every route *)

Lemma substring_length (n m : nat) (s : string) :
  (String.length (substring n m s) <= m)%nat.
Proof.
  revert n m. induction s as [| c s IH]; intros n m.
  - destruct n, m; simpl; lia.
  - destruct n as [| n].
    + destruct m as [| m]; simpl; [lia |]. specialize (IH 0%nat m). lia.
    + simpl. apply IH.
Qed.

Lemma varchar_ok_fits (n : nat) (v c : option string) :
  varchar n v = Ok c -> fits n c.
Proof.
  unfold varchar. destruct v as [s|]; [| intros [= <-]; exact I].
  destruct (Nat.leb_spec (String.length s) n).
  - intros [= <-]. assumption.
  - destruct (all_spaces _); [| discriminate].
    intros [= <-]. apply substring_length.
Qed.

Lemma proposed_fits (next now : Z) (v : Values) (r : Row) :
  proposed next now v = Ok r -> row_fits r.
Proof.
  unfold proposed, bind. intros H. split_result H.
  injection H as <-. unfold row_fits. simpl.
  repeat match goal with
         | E : varchar _ _ = Ok _ |- _ => apply varchar_ok_fits in E
         end.
  repeat split; try assumption.
  destruct a as [k|]; [| discriminate].
  simpl in *. match goal with E : Ok _ = Ok _ |- _ => injection E as <- end.
  assumption.
Qed.

Lemma set_upsert_keeps_keys : keeps_keys set_upsert.
Proof.
  intros now old ex. split; [reflexivity | split; [reflexivity |]].
  unfold row_fits, set_upsert. simpl.
  intros (?&?&?&?&?&?&?) (?&?&?&?&?&?&?). repeat split; try assumption.
  destruct (status ex); assumption.
Qed.


Lemma find_none_key (ex : Row) (l : list Row) :
  find (conflicts ex) l = None -> ~ In (article_id ex) (map article_id l).
Proof.
  intros Hf Hin. apply in_map_iff in Hin. destruct Hin as (r & Hk & Hr).
  pose proof (find_none _ _ Hf r Hr) as Hc.
  unfold conflicts in Hc. rewrite Hk, String.eqb_refl in Hc. discriminate.
Qed.

Lemma insert_on_conflict_consistent (f : Z -> Row -> Row -> Row)
    (now : Z) (v : Values) (d d' : Db) (r : Row) :
  keeps_keys f -> consistent d ->
  insert_on_conflict f now v d = Ok (d', r) ->
  consistent d' /\ seq d <= seq d'.
Proof.
  intros Hf (Hid & Hkey & Hseq & Hfit). unfold insert_on_conflict, bind.
  destruct (proposed (seq d) now v) as [ex|] eqn:Hex; [| discriminate].
  pose proof (proposed_fits _ _ _ _ Hex) as Hexfit.
  assert (Hexid : id ex = seq d)
    by (apply proposed_fields in Hex; tauto).
  destruct (find (conflicts ex) (rows d)) eqn:Hfind; intros [= <- _];
    (split; [| simpl; lia]); unfold consistent; simpl.
  - assert (Hids : map id (map (fun r0 => if conflicts ex r0
                                           then f now r0 ex else r0) (rows d))
                   = map id (rows d)).
    { rewrite map_map. apply map_ext. intros x.
      destruct (conflicts ex x); [apply Hf | reflexivity]. }
    assert (Hkeys : map article_id
                      (map (fun r0 => if conflicts ex r0
                                      then f now r0 ex else r0) (rows d))
                    = map article_id (rows d)).
    { rewrite map_map. apply map_ext. intros x.
      destruct (conflicts ex x); [apply Hf | reflexivity]. }
    rewrite Hids, Hkeys. repeat split; try assumption.
    + rewrite Forall_map. rewrite Forall_forall in *. intros x Hx.
      specialize (Hseq x Hx).
      destruct (conflicts ex x); [| lia].
      destruct (Hf now x ex) as (-> & _). lia.
    + rewrite Forall_map. rewrite Forall_forall in *. intros x Hx.
      destruct (conflicts ex x); [| now apply Hfit].
      apply Hf; [now apply Hfit | assumption].
  - rewrite !map_app. simpl. repeat split.
    + apply NoDup_app; [assumption | repeat constructor; intros [] | ].
      intros x Hx [<- | []]. rewrite Hexid in Hx.
      apply in_map_iff in Hx. destruct Hx as (y & Hy & Hin).
      rewrite Forall_forall in Hseq. specialize (Hseq y Hin). lia.
    + apply NoDup_app; [assumption | repeat constructor; intros [] | ].
      intros x Hx [<- | []]. now apply (find_none_key ex (rows d)).
    + apply Forall_app. split.
      * eapply Forall_impl; [| exact Hseq]. simpl. intros; lia.
      * constructor; [lia | constructor].
    + apply Forall_app. split; [assumption | now constructor].
Qed.











(** *** Upsert, then read *)

Lemma none_by_id (l : list Row) (i : Z) :
  ~ In i (map id l) -> filter (fun x => id x =? i) l = [].
Proof.
  induction l as [| a l IH]; simpl; [reflexivity |]. intros H.
  destruct (Z.eqb_spec (id a) i) as [E | _].
  - exfalso. apply H. now left.
  - apply IH. intros Hin. apply H. now right.
Qed.

Lemma unique_by_id (l : list Row) (r : Row) :
  NoDup (map id l) -> In r l -> filter (fun x => id x =? id r) l = [r].
Proof.
  induction l as [| a l IH]; simpl; [intros _ [] |].
  intros Hnd [-> | Hin]; inversion Hnd as [| ? ? Hnotin Hnd']; subst.
  - rewrite Z.eqb_refl. f_equal. now apply none_by_id.
  - destruct (Z.eqb_spec (id a) (id r)) as [E | _]; [| now apply IH].
    exfalso. apply Hnotin. rewrite E. now apply in_map.
Qed.

Lemma unique_by_key (l : list Row) (a b : Row) :
  NoDup (map article_id l) -> In a l -> In b l ->
  article_id a = article_id b -> a = b.
Proof.
  induction l as [| x l IH]; simpl; [intros _ [] |].
  intros Hnd Ha Hb E. inversion Hnd as [| ? ? Hnotin Hnd']; subst.
  destruct Ha as [-> | Ha], Hb as [-> | Hb]; [reflexivity | | | now apply IH].
  - exfalso. apply Hnotin. rewrite E. now apply in_map.
  - exfalso. apply Hnotin. rewrite <- E. now apply in_map.
Qed.

(** What an accepted INSERT ... ON CONFLICT leaves: the row it returns
    is stored; it took the place of the one stored record with its key,
    keeping that record's [id], or was appended under the next value of
    the sequence. *)
Lemma insert_on_conflict_rows (f : Z -> Row -> Row -> Row) (now : Z)
    (v : Values) (d d' : Db) (r : Row) :
  keeps_keys f -> consistent d ->
  insert_on_conflict f now v d = Ok (d', r) ->
  In r (rows d')
  /\ ((exists l1 old l2,
         rows d = (l1 ++ old :: l2)%list
         /\ rows d' = (l1 ++ r :: l2)%list
         /\ article_id old = article_id r /\ id old = id r
         /\ exists ex, proposed (seq d) now v = Ok ex /\ r = f now old ex)
      \/ ((forall x, In x (rows d) -> article_id x <> article_id r)
          /\ rows d' = (rows d ++ [r])%list
          /\ id r = seq d
          /\ proposed (seq d) now v = Ok r)).
Proof.
  intros Hf (Hid & Hkey & Hseq & Hfit). unfold insert_on_conflict, bind.
  destruct (proposed (seq d) now v) as [ex|] eqn:Hex; [| discriminate].
  destruct (find (conflicts ex) (rows d)) as [old|] eqn:Hfind;
    intros [= <- <-]; simpl.
  - apply find_some in Hfind. destruct Hfind as [Hin Hc].
    destruct (in_split _ _ Hin) as (l1 & l2 & Hsplit).
    assert (Hother : forall x, In x (l1 ++ l2)%list -> conflicts ex x = false).
    { intros x Hx. destruct (conflicts ex x) eqn:Hcx; [| reflexivity].
      exfalso. unfold conflicts in Hc, Hcx.
      apply String.eqb_eq in Hc, Hcx.
      assert (x = old).
      { apply (unique_by_key (rows d)); try assumption; [| congruence].
        rewrite Hsplit. apply in_app_iff in Hx. apply in_app_iff.
        destruct Hx; [now left | right; now right]. }
      subst x. rewrite Hsplit, map_app in Hkey. simpl in Hkey.
      apply NoDup_remove_2 in Hkey. apply Hkey.
      rewrite <- map_app. now apply in_map. }
    assert (Hmap : map (fun r0 => if conflicts ex r0 then f now r0 ex else r0)
                     (rows d) = (l1 ++ f now old ex :: l2)%list).
    { rewrite Hsplit, map_app. simpl. rewrite Hc. f_equal; [| f_equal].
      - rewrite <- (map_id l1) at 2. apply map_ext_in. intros x Hx.
        rewrite Hother; [reflexivity | apply in_app_iff; now left].
      - rewrite <- (map_id l2) at 2. apply map_ext_in. intros x Hx.
        rewrite Hother; [reflexivity | apply in_app_iff; now right]. }
    rewrite Hmap. split; [apply in_app_iff; right; now left |].
    left. exists l1, old, l2.
    destruct (Hf now old ex) as (Eid & Ek & _).
    repeat split; try assumption; try congruence. now exists ex.
  - split; [apply in_app_iff; right; now left |]. right.
    repeat split.
    + intros x Hx E. apply (find_none_key ex (rows d) Hfind).
      rewrite <- E. now apply in_map.
    + apply proposed_fields in Hex. tauto.
Qed.

(** X2.  On a ready, consistent store, the record an upsert is answered
    with can be read back: reading the [id] of the answer on the
    resulting store gives status 200 and the very same record. *)
Theorem upsert_then_get_round_trip (s s' : Server) (d : Db) (b : Body.t)
    (now : Z) (r : Row) :
  available s = Some d -> consistent d ->
  post_article s b now = (s', {| code := 200; json := JRow r |}) ->
  get_article s' (id r) = (s', {| code := 200; json := JRow r |}).
Proof.
  intros Ha Hd. unfold post_article. rewrite Ha.
  destruct (insert_on_conflict set_upsert now (upsert_values b) d)
    as [[d' r']|e] eqn:Hi; [| discriminate].
  intros [= <- <-].
  destruct (insert_on_conflict_consistent _ _ _ _ _ _
              set_upsert_keeps_keys Hd Hi) as [(Hid' & _) _].
  destruct (insert_on_conflict_rows _ _ _ _ _ _
              set_upsert_keeps_keys Hd Hi) as [Hin _].
  unfold get_article.
  destruct (with_db_available s d d' Ha) as (-> & _).
  unfold select_by_id. now rewrite (unique_by_id _ _ Hid' Hin).
Qed.

Lemma one_record_consistent : store_consistent one_record.
Proof.
  unfold store_consistent, consistent, row_fits. simpl.
  repeat split; repeat constructor; simpl; try lia; intros [].
Qed.

(** A fresh record upserted into the store of one record is read back
    under the id it was given. *)
Lemma upsert_then_get_round_trip_witness :
  exists s' r,
    post_article one_record (as_body (fresh "C1" 4)) 30
    = (s', {| code := 200; json := JRow r |})
    /\ get_article s' (id r) = (s', {| code := 200; json := JRow r |}).
Proof.
  eexists. eexists. split; [reflexivity |].
  apply (upsert_then_get_round_trip one_record _ _
           (as_body (fresh "C1" 4)) 30 _ eq_refl one_record_consistent
           eq_refl).
Defined.

(** *** What an upsert writes, and what it leaves *)

Lemma proposed_title (next now : Z) (v : Values) (r : Row) :
  proposed next now v = Ok r -> v_title v = Some (title r).
Proof.
  unfold proposed, bind. intros H. split_result H.
  injection H as <-. simpl.
  destruct (v_title v); simpl in *; congruence.
Qed.

(** X3.  On a ready, consistent store an upsert answered with status
    200 touches one record and no other.  The answer carries the title
    of the body, and the description, word count and week of the body
    or NULL where the body leaves them out; its status is never NULL
    and its time of last update is the time of the request.  Either a
    record with the key was stored, and the answer takes its place in
    the table with its [id] and time of creation, and with its notes
    unless the body supplies some; or none was, and the answer is
    appended under the next value of the sequence with the notes of
    the body. *)
Theorem upsert_touches_one_record (s s' : Server) (d : Db) (b : Body.t)
    (now : Z) (r : Row) :
  available s = Some d -> consistent d ->
  post_article s b now = (s', {| code := 200; json := JRow r |}) ->
  Body.title b = val (title r)
  /\ description r = prepareValue (Body.description b)
  /\ word_count r = prepareValue (Body.word_count b)
  /\ week r = prepareValue (Body.week b)
  /\ status r <> None
  /\ updated_at r = now
  /\ ((exists l1 old l2,
         rows d = (l1 ++ old :: l2)%list
         /\ table s' = (l1 ++ r :: l2)%list
         /\ article_id r = article_id old /\ id r = id old
         /\ created_at r = created_at old
         /\ notes r = supplied_or_kept (Body.notes b) (notes old))
      \/ ((forall x, In x (rows d) -> article_id x <> article_id r)
          /\ table s' = (rows d ++ [r])%list
          /\ id r = seq d /\ created_at r = now
          /\ notes r = prepareValue (Body.notes b))).
Proof.
  intros Ha Hd. unfold post_article. rewrite Ha.
  destruct (insert_on_conflict set_upsert now (upsert_values b) d)
    as [[d' r']|e] eqn:Hi; [| discriminate].
  intros [= <- <-].
  destruct (insert_on_conflict_rows _ _ _ _ _ _
              set_upsert_keeps_keys Hd Hi) as [_ Hcases].
  assert (Hex : forall ex, proposed (seq d) now (upsert_values b) = Ok ex ->
            Body.title b = val (title ex)
            /\ description ex = prepareValue (Body.description b)
            /\ word_count ex = prepareValue (Body.word_count b)
            /\ week ex = prepareValue (Body.week b)
            /\ status ex <> None /\ updated_at ex = now
            /\ created_at ex = now
            /\ notes ex = prepareValue (Body.notes b)).
  { intros ex Hex. pose proof (proposed_title _ _ _ _ Hex) as Ht.
    pose proof (proposed_fields _ _ _ _ Hex)
      as (_ & Hc & Hu & _ & Hdesc & Hwc & Hwk & Hn & Hst).
    simpl in *. repeat split; try assumption.
    - destruct (Body.title b); simpl in Ht; congruence.
    - intros Hnone. rewrite Hnone in Hst. unfold varchar in Hst.
      repeat match type of Hst with
             | context [if ?c then _ else _] => destruct c
             end; discriminate. }
  destruct Hcases as [(l1 & old & l2 & Hrows & Hrows' & Hk & Hi' & ex & Hp & ->)
                     | (Hfresh & Hrows' & Hid & Hp)].
  - destruct (Hex ex Hp) as (Ht & Hdesc & Hwc & Hwk & Hst & Hu & Hc & Hn).
    simpl. repeat split; try assumption.
    + destruct (status ex); [discriminate | contradiction].
    + left. exists l1, old, l2. repeat split; try assumption.
      simpl. rewrite Hn. apply prepareValue_supplied.
  - destruct (Hex r' Hp) as (Ht & Hdesc & Hwc & Hwk & Hst & Hu & Hc & Hn).
    repeat split; try assumption.
    right. repeat split; assumption.
Qed.

(** The stored record A1 upserted again without notes keeps its id,
    its time of creation and its notes. *)
Lemma upsert_touches_one_record_witness :
  exists s' r,
    post_article one_record (as_body (stringify basics)) 30
    = (s', {| code := 200; json := JRow r |})
    /\ id r = 1 /\ updated_at r = 30 /\ description r = None.
Proof.
  eexists. eexists. split; [reflexivity |].
  destruct (upsert_touches_one_record one_record _ _
              (as_body (stringify basics)) 30 _ eq_refl
              one_record_consistent eq_refl)
    as (_ & Hdesc & _ & _ & _ & Hu & _).
  split; [reflexivity | split; [exact Hu | exact Hdesc]].
Defined.




(** *** The same upsert twice *)

Lemma proposed_again (n1 t1 n2 t2 : Z) (v : Values) (ex : Row) :
  proposed n1 t1 v = Ok ex ->
  proposed n2 t2 v = Ok (proposed_anew n2 t2 ex).
Proof.
  intros H. rewrite proposed_at in H. rewrite proposed_at.
  destruct (proposed 0 0 v); [| discriminate].
  injection H as <-. reflexivity.
Qed.

Lemma set_upsert_settles : settles set_upsert.
Proof.
  intros t1 t2 n2 ex. split; [intros x |];
    unfold set_upsert, restamp, proposed_anew; simpl;
    destruct (status ex), (notes ex); reflexivity.
Qed.

Lemma set_bulk_settles : settles set_bulk.
Proof.
  intros t1 t2 n2 ex. split; [intros x |]; reflexivity.
Qed.

Lemma find_first_conflict (ex ex' : Row) (g : Row -> Row) (l : list Row) :
  (forall x, conflicts ex' (g x) = conflicts ex x) ->
  find (conflicts ex') (map g l) = option_map g (find (conflicts ex) l).
Proof.
  intros Hg. induction l as [| a l IH]; simpl; [reflexivity |].
  rewrite Hg. destruct (conflicts ex a); [reflexivity | exact IH].
Qed.

(** Run again with the same VALUES on the database it left, an accepted
    INSERT ... ON CONFLICT is accepted again, adds no row, and changes
    nothing but the time of last update of the row with its key. *)
Lemma insert_on_conflict_again (f : Z -> Row -> Row -> Row) (t1 t2 : Z)
    (v : Values) (d d1 : Db) (r1 : Row) :
  keeps_keys f -> settles f ->
  insert_on_conflict f t1 v d = Ok (d1, r1) ->
  insert_on_conflict f t2 v d1
  = Ok ({| seq := seq d1 + 1;
           rows := map (touch t2 (article_id r1)) (rows d1) |},
        restamp r1 (status r1) t2).
Proof.
  intros Hk Hs. unfold insert_on_conflict at 1. unfold bind.
  destruct (proposed (seq d) t1 v) as [ex|] eqn:Hex; [| discriminate].
  assert (Hc2 : forall n x,
             conflicts (proposed_anew n t2 ex) x = conflicts ex x)
    by reflexivity.
  destruct (find (conflicts ex) (rows d)) as [old|] eqn:Hfind;
    intros [= <- <-]; unfold insert_on_conflict, bind; simpl;
    rewrite (proposed_again _ _ (seq d + 1) t2 _ _ Hex).
  - pose proof (find_some _ _ Hfind) as [Hin Hcold].
    assert (Hkey : article_id (f t1 old ex) = article_id ex).
    { destruct (Hk t1 old ex) as (_ & -> & _).
      unfold conflicts in Hcold. now apply String.eqb_eq in Hcold. }
    rewrite (find_first_conflict ex).
    + rewrite Hfind. simpl. rewrite Hcold.
      destruct (Hs t1 t2 (seq d + 1) ex) as [Hagain _].
      rewrite Hagain. f_equal. f_equal. f_equal.
      rewrite !map_map. apply map_ext. intros x.
      unfold touch. rewrite Hkey.
      destruct (conflicts ex x) eqn:Hcx.
      * rewrite Hc2.
        assert (Hcx' : conflicts ex (f t1 x ex) = true).
        { unfold conflicts in *. destruct (Hk t1 x ex) as (_ & -> & _).
          exact Hcx. }
        rewrite Hcx'. unfold conflicts in Hcx'. rewrite Hcx'. apply Hagain.
      * rewrite Hc2, Hcx. unfold conflicts in Hcx. now rewrite Hcx.
    + intros x. rewrite Hc2. destruct (conflicts ex x) eqn:Hcx; [| exact Hcx].
      unfold conflicts in *. destruct (Hk t1 x ex) as (_ & -> & _). exact Hcx.
  - assert (Hnone : forall x, In x (rows d) -> conflicts ex x = false)
      by (intros x Hx; exact (find_none _ _ Hfind x Hx)).
    assert (Hfind2 : find (conflicts (proposed_anew (seq d + 1) t2 ex))
                       (rows d ++ [ex])%list = Some ex).
    { clear Hfind. induction (rows d) as [| a l IH]; simpl.
      - unfold conflicts. simpl. now rewrite String.eqb_refl.
      - rewrite Hc2, (Hnone a (or_introl eq_refl)).
        apply IH. intros x Hx. apply Hnone. now right. }
    rewrite Hfind2.
    destruct (Hs t1 t2 (seq d + 1) ex) as [_ Hinit].
    rewrite Hinit. f_equal. f_equal. f_equal.
    rewrite !map_app. simpl. f_equal.
    + apply map_ext_in. intros x Hx.
      rewrite Hc2, (Hnone x Hx). unfold touch.
      specialize (Hnone x Hx). unfold conflicts in Hnone. now rewrite Hnone.
    + rewrite Hc2. unfold conflicts, touch. rewrite String.eqb_refl.
      now rewrite Hinit.
Qed.

(** X5.  Upserting is idempotent on the key.  When an upsert has been
    answered with status 200, the same body upserted again on the
    resulting store is answered with status 200 and the same record,
    its time of last update apart; no record is added, and no stored
    record changes but for that time on the record with the key. *)
Theorem upsert_twice_changes_only_the_time (s s1 : Server) (b : Body.t)
    (t1 t2 : Z) (r1 : Row) :
  post_article s b t1 = (s1, {| code := 200; json := JRow r1 |}) ->
  snd (post_article s1 b t2)
  = {| code := 200; json := JRow (restamp r1 (status r1) t2) |}
  /\ table (fst (post_article s1 b t2))
     = map (touch t2 (article_id r1)) (table s1).
Proof.
  unfold post_article at 1.
  destruct (available s) as [d|] eqn:Ha; [| discriminate].
  destruct (insert_on_conflict set_upsert t1 (upsert_values b) d)
    as [[d1 r]|e] eqn:Hi; [| discriminate].
  intros [= <- <-].
  pose proof (insert_on_conflict_again _ t1 t2 _ _ _ _
                set_upsert_keeps_keys set_upsert_settles Hi) as Hagain.
  unfold post_article.
  destruct (with_db_available s d d1 Ha) as (-> & _).
  rewrite Hagain. split; reflexivity.
Qed.

(** The stored record A1 upserted twice with the same body. *)
Lemma upsert_twice_changes_only_the_time_witness :
  table (fst (post_article
                (fst (post_article one_record
                        (as_body (stringify basics)) 30))
                (as_body (stringify basics)) 40))
  = map (touch 40 "A1")
        (table (fst (post_article one_record
                       (as_body (stringify basics)) 30))).
Proof.
  exact (proj2 (upsert_twice_changes_only_the_time one_record
                  (fst (post_article one_record
                          (as_body (stringify basics)) 30))
                  (as_body (stringify basics)) 30 40
                  (restamp written_row (Some "planned") 30) eq_refl)).
Defined.

(** *** Deleting *)



(** *** Listing *)

Lemma string_leb_iff (a b : string) :
  (a <=? b)%string = true
  <-> a = b \/ OrderedTypeEx.String_as_OT.lt a b.
Proof.
  unfold String.leb.
  destruct (String.compare a b) eqn:E.
  - apply OrderedTypeEx.String_as_OT.cmp_eq in E. tauto.
  - apply OrderedTypeEx.String_as_OT.cmp_lt in E. tauto.
  - split; [discriminate |]. intros [-> | H].
    + assert (String.compare b b = Eq)
        by now apply OrderedTypeEx.String_as_OT.cmp_eq.
      congruence.
    + apply OrderedTypeEx.String_as_OT.cmp_lt in H.
      unfold OrderedTypeEx.String_as_OT.cmp in H. congruence.
Qed.

Lemma string_leb_trans (a b c : string) :
  (a <=? b)%string = true -> (b <=? c)%string = true ->
  (a <=? c)%string = true.
Proof.
  rewrite !string_leb_iff. intros [-> | Hab] [-> | Hbc]; auto.
  right. eapply OrderedTypeEx.String_as_OT.lt_trans; eassumption.
Qed.



Lemma insert_sorted_perm (le : Row -> Row -> bool) (r : Row) (l : list Row) :
  Permutation (insert_sorted le r l) (r :: l).
Proof.
  induction l as [| x l IH]; simpl; [reflexivity |].
  destruct (le r x); [reflexivity |].
  rewrite IH. apply perm_swap.
Qed.

Lemma order_by_perm (le : Row -> Row -> bool) (l : list Row) :
  Permutation (order_by le l) l.
Proof.
  unfold order_by. induction l as [| x l IH]; simpl; [reflexivity |].
  rewrite insert_sorted_perm. now constructor.
Qed.







(** *** Statistics *)

Lemma counts_of_three (col : Row -> option string) (k1 k2 k3 : string)
    (l : list Row) :
  k1 <> k2 -> k1 <> k3 -> k2 <> k3 ->
  count_where (fun r => is_text (col r) k1) l
  + count_where (fun r => is_text (col r) k2) l
  + count_where (fun r => is_text (col r) k3) l
  <= Z.of_nat (List.length l)
  /\ ((forall r, In r l -> col r = Some k1 \/ col r = Some k2
                           \/ col r = Some k3) ->
      count_where (fun r => is_text (col r) k1) l
      + count_where (fun r => is_text (col r) k2) l
      + count_where (fun r => is_text (col r) k3) l
      = Z.of_nat (List.length l)).
Proof.
  intros H12 H13 H23. unfold count_where.
  induction l as [| a l [IHle IHeq]]; simpl; [split; [lia | reflexivity] |].
  assert (Hone : forall c k k', is_text c k = true -> k <> k' ->
                                is_text c k' = false).
  { intros [x|] k k' Hk Hne; simpl in *; [| discriminate].
    apply String.eqb_eq in Hk. subst x. now apply String.eqb_neq. }
  assert (Hsome : forall k, col a = Some k -> is_text (col a) k = true)
    by (intros k ->; apply String.eqb_refl).
  split.
  - destruct (is_text (col a) k1) eqn:E1;
      [rewrite (Hone _ _ k2 E1 H12), (Hone _ _ k3 E1 H13) |];
      [simpl List.length; lia |].
    destruct (is_text (col a) k2) eqn:E2;
      [rewrite (Hone _ _ k3 E2 H23) |];
      [simpl List.length; lia |].
    destruct (is_text (col a) k3); simpl List.length; lia.
  - intros Hall.
    assert (IH : Z.of_nat (List.length (filter (fun r => is_text (col r) k1) l))
                 + Z.of_nat (List.length (filter (fun r => is_text (col r) k2) l))
                 + Z.of_nat (List.length (filter (fun r => is_text (col r) k3) l))
                 = Z.of_nat (List.length l))
      by (apply IHeq; intros r Hr; apply Hall; now right).
    destruct (Hall a (or_introl eq_refl)) as [E | [E | E]];
      rewrite (Hsome _ E).
    + rewrite (Hone _ _ k2 (Hsome _ E) H12), (Hone _ _ k3 (Hsome _ E) H13).
      simpl List.length. lia.
    + rewrite (Hone _ _ k1 (Hsome _ E) (not_eq_sym H12)),
        (Hone _ _ k3 (Hsome _ E) H23).
      simpl List.length. lia.
    + rewrite (Hone _ _ k1 (Hsome _ E) (not_eq_sym H13)),
        (Hone _ _ k2 (Hsome _ E) (not_eq_sym H23)).
      simpl List.length. lia.
Qed.

(** X8.  On a ready store the statistics agree with the list: the total
    is the number of records the list route answers with, the three
    priority counts never add up to more than the total, and they add
    up to it exactly when every stored priority is High, Medium or
    Low. *)
Theorem stats_agree_with_the_list (s : Server) (d : Db) :
  available s = Some d ->
  exists total high medium low listing,
    json (snd (get_articles s)) = JRows listing
    /\ count_of "total" (snd (get_stats s)) = Some total
    /\ count_of "high_priority" (snd (get_stats s)) = Some high
    /\ count_of "medium_priority" (snd (get_stats s)) = Some medium
    /\ count_of "low_priority" (snd (get_stats s)) = Some low
    /\ total = Z.of_nat (List.length listing)
    /\ 0 <= high /\ 0 <= medium /\ 0 <= low
    /\ high + medium + low <= total
    /\ ((forall r, In r (rows d) ->
                   priority r = Some "High" \/ priority r = Some "Medium"
                   \/ priority r = Some "Low") ->
        high + medium + low = total).
Proof.
  intros Ha. unfold get_articles, get_stats. rewrite Ha. simpl.
  do 5 eexists. split; [reflexivity |].
  unfold count_of. simpl.
  split; [reflexivity |]. split; [reflexivity |].
  split; [reflexivity |]. split; [reflexivity |].
  destruct (counts_of_three priority "High" "Medium" "Low" (rows d))
    as [Hle Heq]; try discriminate.
  split.
  - now rewrite (Permutation_length (order_by_perm week_article_le (rows d))).
  - unfold count_where in *. repeat split; try lia; assumption.
Qed.

Lemma stats_agree_with_the_list_witness :
  exists total high medium low listing,
    json (snd (get_articles one_record)) = JRows listing
    /\ count_of "total" (snd (get_stats one_record)) = Some total
    /\ count_of "high_priority" (snd (get_stats one_record)) = Some high
    /\ count_of "medium_priority" (snd (get_stats one_record)) = Some medium
    /\ count_of "low_priority" (snd (get_stats one_record)) = Some low
    /\ total = Z.of_nat (List.length listing)
    /\ 0 <= high /\ 0 <= medium /\ 0 <= low
    /\ high + medium + low <= total
    /\ ((forall r, In r [written_row] ->
                   priority r = Some "High" \/ priority r = Some "Medium"
                   \/ priority r = Some "Low") ->
        high + medium + low = total).
Proof.
  exact (stats_agree_with_the_list one_record _ eq_refl).
Defined.

(** *** Patching, whatever the body and the answer *)

Lemma update_where_id_none (f : Row -> Result Row) (i : Z) :
  forall l l', update_where_id f i l = Ok (l', []) -> l' = l.
Proof.
  induction l as [| x l IH]; intros l' H; simpl in H.
  - now injection H as <-.
  - unfold bind in H. destruct (id x =? i).
    + destruct (f x); [| discriminate].
      destruct (update_where_id f i l) as [[l0 ret0]|]; discriminate.
    + destruct (update_where_id f i l) as [[l0 ret0]|] eqn:Hu;
        [| discriminate].
      simpl in H. injection H as <- ->. f_equal. now apply IH.
Qed.

Lemma set_patch_same_descriptive_fields (now : Z) (p1 p2 : option string)
    (p3 : option Z) (r r' : Row) :
  set_patch now p1 p2 p3 r = Ok r' -> same_descriptive_fields r r'.
Proof.
  unfold set_patch, bind.
  destruct (varchar 50 (COALESCE p1 (status r))); [| discriminate].
  intros [= <-]. unfold same_descriptive_fields. simpl. repeat split.
Qed.

Lemma updated_rows_related (f : Row -> Result Row)
    (R : Row -> Row -> Prop) :
  (forall r, R r r) -> (forall r r', f r = Ok r' -> R r r') ->
  forall l l',
    Forall2 (fun r r' => r' = r \/ f r = Ok r') l l' -> Forall2 R l l'.
Proof.
  intros Hrefl Hf l l' H.
  induction H as [| r r' l0 l0' Hr _ IH]; constructor; [| exact IH].
  destruct Hr as [-> | Hr]; [apply Hrefl | now apply Hf].
Qed.

(** X9.  Whatever the id, the body and the answer, a patch adds no
    record, removes none and reorders none, and changes no descriptive
    column of any record (nor its [id], key or time of creation); and
    whenever it is answered with anything but status 200, the server
    is left as it was. *)
Theorem patch_keeps_every_record (s : Server) (i : Z) (b : Patch.t)
    (now : Z) :
  Forall2 same_descriptive_fields
          (table s) (table (fst (patch_article s i b now)))
  /\ (code (snd (patch_article s i b now)) <> 200 ->
      fst (patch_article s i b now) = s).
Proof.
  assert (Hsame : forall l : list Row, Forall2 same_descriptive_fields l l).
  { induction l; constructor; [| assumption].
    unfold same_descriptive_fields. repeat split. }
  unfold patch_article.
  destruct (available s) as [d|] eqn:Ha; [| split; [apply Hsame | reflexivity]].
  destruct (available_table s d Ha) as [Ht Hs]. rewrite Ht.
  unfold update_patch, bind.
  destruct (update_where_id _ i (rows d)) as [[l' ret]|e] eqn:Hu; simpl.
  - assert (Hrows : Forall2 same_descriptive_fields (rows d) l').
    { apply (updated_rows_related
               (set_patch now (prepareValue (Patch.status b))
                  (prepareValue (Patch.notes b))
                  (prepareValue (Patch.week b)))).
      - intros r. unfold same_descriptive_fields. repeat split.
      - apply set_patch_same_descriptive_fields.
      - now apply (update_where_id_rows _ i _ _ ret). }
    destruct ret as [| r0 ret]; simpl; (split; [exact Hrows |]).
    + intros _. apply update_where_id_none in Hu. subst l'.
      rewrite Hs. unfold with_db. simpl. now destruct d.
    + congruence.
  - rewrite Ht. split; [apply Hsame | reflexivity].
Qed.

(** * Further properties of the planning view *)

(** *** Loading from a ready store *)









(** *** Filtering again, and rendering *)


(** X12.  Filtering starts over from the whole list each time: it
    never changes [articles], its outcome does not depend on what was
    shown before, so that filtering twice is filtering once, the count
    written is the number of records shown, and with the search box
    empty and every control unset all records are shown. *)
Theorem filtering_starts_from_the_whole_list `{Host} (p : Page)
    (l : list ViewArticle) :
  articles p = array l ->
  articles (applyFilters p) = array l
  /\ (forall shown shown', applyFilters (set_lists p (array l) shown)
                           = applyFilters (set_lists p (array l) shown'))
  /\ applyFilters (applyFilters p) = applyFilters p
  /\ results_count (applyFilters p)
     = Z.of_nat (List.length (filteredArticles (applyFilters p)))
  /\ (search p = "" -> category_filter p = "" -> priority_filter p = "" ->
      funnel_filter p = "" -> status_filter p = "" ->
      filteredArticles (applyFilters p) = l).
Proof.
  intros Hl. unfold applyFilters. rewrite Hl.
  split; [reflexivity |]. split; [reflexivity |].
  split; [reflexivity |]. split; [reflexivity |].
  intros Hs Hc Hp Hf Hst. simpl.
  assert (Hall : forall a, matches p a = true).
  { intros a. unfold matches, unset_or_equal.
    rewrite Hs, Hc, Hp, Hf, Hst, toLowerCase_empty. reflexivity. }
  clear Hl. induction l as [| a l0 IH]; simpl; [reflexivity |].
  rewrite Hall. f_equal. apply IH.
Qed.

Lemma filtering_starts_from_the_whole_list_witness :
  @applyFilters (plain_host None)
    (@applyFilters (plain_host None) (two_records "widg" ""))
  = @applyFilters (plain_host None) (two_records "widg" "").
Proof.
  apply (@filtering_starts_from_the_whole_list (plain_host None)
           (two_records "widg" "")
           [from_store widget; from_store gadget] eq_refl).
Defined.


(** *** Grouping by week and by category *)

Section Grouping.
Context {K : Type} (eqb : K -> K -> bool) (key : ViewArticle -> K).
Hypothesis eqb_eq : forall x y, eqb x y = true <-> x = y.





End Grouping.









(** *** The counters *)

Lemma count_priority_store (t : string) (l : list Row) :
  count_priority t (map from_store l) = with_priority t l.
Proof.
  unfold count_priority, with_priority. f_equal.
  induction l as [| r l IH]; simpl; [reflexivity |].
  unfold priority_is at 1. simpl.
  destruct (priority r) as [x|]; simpl; [| exact IH].
  destruct (x =? t)%string; simpl; now rewrite IH.
Qed.

Lemma with_priority_listed (t : string) (d : Db) :
  with_priority t (listed d) = with_priority t (rows d).
Proof.
  unfold with_priority, listed. f_equal. apply Permutation_length.
  assert (H : forall (f : Row -> bool) (l1 l2 : list Row),
             Permutation l1 l2 -> Permutation (filter f l1) (filter f l2)).
  { intros f l1 l2 Hp. induction Hp; simpl.
    - constructor.
    - destruct (f x); [now constructor | assumption].
    - destruct (f x), (f y); try reflexivity. apply perm_swap.
    - etransitivity; eassumption. }
  apply H, order_by_perm.
Qed.

Lemma updateStats_ready (w : World) (p : Page) (c : Counters) (d : Db) :
  available (server w) = Some d ->
  articles p = array (map from_store (listed d)) ->
  snd (updateStats w p c)
  = {| total_count := val (Z.of_nat (List.length (rows d)));
       high_count := val (with_priority "High" (rows d));
       medium_count := val (with_priority "Medium" (rows d));
       low_count := val (with_priority "Low" (rows d)) |}
  /\ server (fst (updateStats w p c)) = server w.
Proof.
  intros Ha Hp. unfold updateStats, fetch.
  destruct (carried w).
  - unfold get_stats. rewrite Ha. simpl. split; reflexivity.
  - simpl. rewrite Hp. simpl. split; [| reflexivity].
    rewrite !count_priority_store, !with_priority_listed.
    rewrite length_map. unfold listed.
    now rewrite (Permutation_length (order_by_perm week_article_le (rows d))).
Qed.

(** X16.  When the view holds what a ready store lists, the counters
    come out the same whether the statistics request is carried or
    rejected: the total is the number of stored records and the three
    priority counters are the numbers of stored High, Medium and Low
    records, taken from the server in one case and counted over
    [articles] in the other. *)
Theorem counters_agree_with_the_store (w : World) (p : Page) (c : Counters)
    (d : Db) :
  available (server w) = Some d ->
  articles p = array (map from_store (listed d)) ->
  snd (updateStats w p c)
  = {| total_count := val (Z.of_nat (List.length (rows d)));
       high_count := val (with_priority "High" (rows d));
       medium_count := val (with_priority "Medium" (rows d));
       low_count := val (with_priority "Low" (rows d)) |}
  /\ server (fst (updateStats w p c)) = server w.
Proof. apply updateStats_ready. Qed.

Lemma counters_agree_with_the_store_witness :
  snd (updateStats {| server := one_record; clock := 0; net := [false] |}
         (set_lists empty_page (array [from_store written_row])
                    [from_store written_row])
         {| total_count := undefined; high_count := undefined;
            medium_count := undefined; low_count := undefined |})
  = {| total_count := val 1; high_count := val 1;
       medium_count := val 0; low_count := val 0 |}.
Proof.
  exact (proj1 (counters_agree_with_the_store
                  {| server := one_record; clock := 0; net := [false] |}
                  (set_lists empty_page (array [from_store written_row])
                             [from_store written_row])
                  {| total_count := undefined; high_count := undefined;
                     medium_count := undefined; low_count := undefined |}
                  {| seq := 2; rows := [written_row] |} eq_refl eq_refl)).
Defined.

(** *** Changing a status from the view *)




(** *** The options of the category control *)

Lemma same_value_eq (a b : js string) : same_value a b = true <-> a = b.
Proof.
  destruct a as [| | x], b as [| | y]; simpl;
    try (split; [discriminate | discriminate]);
    try (split; reflexivity).
  rewrite String.eqb_eq. split; [now intros -> | now intros [= ->]].
Qed.

Lemma new_Set_spec (l : list (js string)) :
  NoDup (new_Set l) /\ forall x, In x (new_Set l) <-> In x l.
Proof.
  unfold new_Set.
  assert (H : forall l s,
             NoDup s ->
             NoDup (fold_left set_add l s)
             /\ forall x, In x (fold_left set_add l s) <-> In x s \/ In x l).
  { clear l. induction l as [| a l IH]; intros s Hs; simpl.
    - split; [assumption | intros x; tauto].
    - assert (Hadd : NoDup (set_add s a)
                     /\ forall x, In x (set_add s a) <-> In x s \/ x = a).
      { unfold set_add. destruct (existsb (same_value a) s) eqn:E.
        - split; [assumption |]. intros x. split; [tauto |].
          intros [Hx | ->]; [assumption |].
          apply existsb_exists in E. destruct E as (y & Hy & E).
          apply same_value_eq in E. now subst y.
        - split.
          + apply NoDup_app; [assumption | repeat constructor; intros [] |].
            intros x Hx [Hxa | []]. subst x.
            assert (existsb (same_value a) s = true).
            { apply existsb_exists. exists a. split; [assumption |].
              now apply same_value_eq. }
            congruence.
          + intros x. rewrite in_app_iff. simpl. split.
            * intros [Hx | [<- | []]]; auto.
            * intros [Hx | ->]; auto. }
      destruct Hadd as [Hnd Hin]. destruct (IH _ Hnd) as [Hnd' Hin'].
      split; [assumption |]. intros x. rewrite Hin', Hin.
      split; [intros [[Hx | ->] | Hx] | intros [Hx | [<- | Hx]]]; auto. }
  destruct (H l [] (NoDup_nil _)) as [Hnd Hin].
  split; [assumption |]. intros x. rewrite Hin. simpl. tauto.
Qed.

Lemma insert_by_perm {A : Type} (le : A -> A -> bool) (x : A) (l : list A) :
  Permutation (insert_by le x l) (x :: l).
Proof.
  induction l as [| y l IH]; simpl; [reflexivity |].
  destruct (le x y); [reflexivity |].
  rewrite IH. apply perm_swap.
Qed.

Lemma sort_by_perm {A : Type} (le : A -> A -> bool) (l : list A) :
  Permutation (sort_by le l) l.
Proof.
  unfold sort_by. induction l as [| x l IH]; simpl; [reflexivity |].
  rewrite insert_by_perm. now constructor.
Qed.

Lemma sort_by_sorted {A : Type} (le : A -> A -> bool) :
  (forall x y, le x y = false -> le y x = true) ->
  (forall x y z, le x y = true -> le y z = true -> le x z = true) ->
  forall l, StronglySorted (fun a b => le a b = true) (sort_by le l).
Proof.
  intros Htotal Htrans. unfold sort_by.
  induction l as [| x l IH]; simpl; [constructor |].
  revert IH. generalize (fold_right (insert_by le) [] l). clear l.
  induction l as [| y l IHl]; simpl; intros Hs.
  - repeat constructor.
  - inversion Hs as [| ? ? Hsl Hy]; subst.
    destruct (le x y) eqn:E.
    + constructor; [assumption |]. constructor; [assumption |].
      eapply Forall_impl; [| exact Hy]. simpl. intros z Hz.
      eapply Htrans; eassumption.
    + constructor; [now apply IHl |].
      apply (Permutation_Forall (Permutation_sym (insert_by_perm le x l))).
      constructor; [now apply Htotal | assumption].
Qed.

Lemma default_le_total (x y : js string) :
  default_le x y = false -> default_le y x = true.
Proof.
  destruct x as [| | a], y as [| | b]; simpl; try discriminate;
    try reflexivity; intros E;
    match goal with
    | |- (?u <=? ?v)%string = true =>
        destruct (String.leb_total u v); [assumption | congruence]
    end.
Qed.

Lemma default_le_trans (x y z : js string) :
  default_le x y = true -> default_le y z = true -> default_le x z = true.
Proof.
  destruct x as [| | a], y as [| | b], z as [| | c]; simpl;
    try discriminate; try reflexivity; apply string_leb_trans.
Qed.

(** X18.  The category control is offered one option per distinct
    category of the loaded records: the options already there are
    kept, the ones appended hold no category twice, hold exactly the
    categories that occur, and come in ascending order with an absent
    category last.  Picking an appended category that is a non-empty
    text, with the search box empty and the other controls unset,
    shows exactly the records of that category, and at least one. *)
Theorem every_category_is_offered_once `{Host} (p : Page)
    (l : list ViewArticle) (options : list (js string)) :
  articles p = array l ->
  exists added,
    populateCategoryFilter p options = (options ++ added)%list
    /\ NoDup added
    /\ (forall c, In c added <-> exists a, In a l /\ category_of a = c)
    /\ StronglySorted (fun a b => default_le a b = true) added
    /\ (forall c, In (val c) added -> c <> "" ->
                  search p = "" -> priority_filter p = "" ->
                  funnel_filter p = "" -> status_filter p = "" ->
                  filteredArticles (applyFilters (pick_category c p))
                  = filter (fun a => same_value (category_of a) (val c)) l
                  /\ filteredArticles (applyFilters (pick_category c p))
                     <> []).
Proof.
  intros Hl. unfold populateCategoryFilter. rewrite Hl.
  exists (sort_by default_le (new_Set (map category_of l))).
  destruct (new_Set_spec (map category_of l)) as [Hnd Hin].
  pose proof (sort_by_perm default_le (new_Set (map category_of l))) as Hp.
  assert (Hmem : forall c,
             In c (sort_by default_le (new_Set (map category_of l)))
             <-> exists a, In a l /\ category_of a = c).
  { intros c. split.
    - intros Hc. apply (Permutation_in _ Hp) in Hc. apply Hin in Hc.
      apply in_map_iff in Hc. destruct Hc as (a & Ha & Hal). eauto.
    - intros (a & Hal & Ha).
      apply (Permutation_in _ (Permutation_sym Hp)). apply Hin.
      apply in_map_iff. eauto. }
  split; [reflexivity |].
  split; [exact (Permutation_NoDup (Permutation_sym Hp) Hnd) |].
  split; [exact Hmem |].
  split; [apply sort_by_sorted;
          [apply default_le_total | apply default_le_trans] |].
  intros c Hc Hne Hs Hpr Hf Hst.
  assert (Hfilter : filteredArticles (applyFilters (pick_category c p))
                    = filter (fun a => same_value (category_of a) (val c)) l).
  { unfold applyFilters. simpl. rewrite Hl. simpl.
    apply filter_ext. intros a. unfold matches, unset_or_equal. simpl.
    rewrite Hs, Hpr, Hf, Hst, toLowerCase_empty. simpl.
    rewrite (proj2 (String.eqb_neq c "") Hne). simpl.
    rewrite !andb_true_r. now destruct (category_of a). }
  split; [exact Hfilter |]. rewrite Hfilter.
  apply Hmem in Hc. destruct Hc as (a & Hal & Ha). intros Hnil.
  assert (Hina : In a (filter (fun x => same_value (category_of x) (val c)) l)).
  { apply filter_In. split; [assumption |]. rewrite Ha.
    now apply same_value_eq. }
  rewrite Hnil in Hina. contradiction.
Qed.

(** The widget and the gadget give the options A and B. *)
Lemma every_category_is_offered_once_witness :
  exists added,
    populateCategoryFilter (two_records "" "") [val ""]
    = ([val ""] ++ added)%list
    /\ NoDup added
    /\ (forall c, In c added
                  <-> exists a, In a [from_store widget; from_store gadget]
                                /\ category_of a = c).
Proof.
  destruct (@every_category_is_offered_once (plain_host None)
              (two_records "" "")
              [from_store widget; from_store gadget] [val ""] eq_refl)
    as (added & Heq & Hnd & Hmem & _).
  exists added. split; [exact Heq | split; [exact Hnd | exact Hmem]].
Defined.

(** * Reading one record *)


